(** * Interview practice page: the API handler and the session state

    A shallow embedding of [pages/api/interview.js] (the serverless handler
    and [openaiCompletion]) and of the state handling of [pages/index.jsx]
    (the [Home] component: [fetchQuestions], [gradeAnswer] and the button
    callbacks), followed by the properties of the text parsing and of the
    session state.

    JavaScript strings are sequences of UTF-16 code units; they are modelled
    as lists of code units, so that [trim] and the [\s] and [\d] classes of
    the regular expressions keep their ECMAScript meaning. *)

From Stdlib Require Import List NArith ZArith Bool String Ascii Lia.
Import ListNotations.

Local Open Scope N_scope.

(** ** Strings *)

Definition code_unit := N.
Definition jsstring := list code_unit.

(** An ASCII literal of the source as a list of code units. *)
Definition lit (s : string) : jsstring :=
  map N_of_ascii (list_ascii_of_string s).

Definition LF : code_unit := 10.
Definition SPACE : code_unit := 32.
Definition DOT : code_unit := 46.

(** The class [\d] (without the unicode flag): [0-9]. *)
Definition is_digit (c : code_unit) : bool :=
  (48 <=? c) && (c <=? 57).

(** The class [\s], which is also what [String.prototype.trim] removes:
    WhiteSpace (TAB, VT, FF, SP, NBSP, ZWNBSP and the category Zs) and
    LineTerminator (LF, CR, LS, PS). *)
Definition is_space (c : code_unit) : bool :=
  (c =? 9) || (c =? 10) || (c =? 11) || (c =? 12) || (c =? 13) || (c =? 32)
  || (c =? 160) || (c =? 5760)
  || ((8192 <=? c) && (c <=? 8202))
  || (c =? 8232) || (c =? 8233) || (c =? 8239) || (c =? 8287)
  || (c =? 12288) || (c =? 65279).

(** [Boolean(s)] for a string: the empty string is the only falsy one. *)
Definition truthy_str (s : jsstring) : bool :=
  match s with [] => false | _ :: _ => true end.

Fixpoint trimStart (s : jsstring) : jsstring :=
  match s with
  | [] => []
  | c :: s' => if is_space c then trimStart s' else s
  end.

Definition trimEnd (s : jsstring) : jsstring := rev (trimStart (rev s)).

(** [s.trim()] *)
Definition trim (s : jsstring) : jsstring := trimEnd (trimStart s).

(** [s.split('\n')]: the segments between consecutive line feeds; the empty
    string gives one empty segment. *)
Fixpoint split_LF (s : jsstring) : list jsstring :=
  match s with
  | [] => [[]]
  | c :: s' =>
      if c =? LF then [] :: split_LF s'
      else match split_LF s' with
           | seg :: segs => (c :: seg) :: segs
           | [] => [[c]]
           end
  end.

(** [s.split(/\n+/)]: as [split_LF], but a maximal run of line feeds is one
    separator; a run at either end of the string still leaves an empty
    segment there. *)
Fixpoint split_LFs (s : jsstring) : list jsstring :=
  match s with
  | [] => [[]]
  | c :: s' =>
      if c =? LF then
        match s' with
        | c' :: _ => if c' =? LF then split_LFs s' else [] :: split_LFs s'
        | [] => [] :: split_LFs s'
        end
      else match split_LFs s' with
           | seg :: segs => (c :: seg) :: segs
           | [] => [[c]]
           end
  end.

(** The longest prefix made of digits: what [\d+] consumes, greedily, from
    the position where it starts. *)
Fixpoint takeDigits (s : jsstring) : jsstring :=
  match s with
  | c :: s' => if is_digit c then c :: takeDigits s' else []
  | [] => []
  end.

Fixpoint dropDigits (s : jsstring) : jsstring :=
  match s with
  | c :: s' => if is_digit c then dropDigits s' else s
  | [] => []
  end.

(** [s.replace(/^\d+\.\s*/, '')]: the pattern is anchored at the start of
    the string (no [m] flag) and not global. [\d+] takes every leading digit;
    the match succeeds exactly when at least one digit was taken and a period
    follows (giving digits back cannot help: the code unit after a shorter
    run is a digit). [\s*] then takes every white space that follows. *)
Definition strip_ordinal (s : jsstring) : jsstring :=
  match takeDigits s, dropDigits s with
  | _ :: _, c :: r => if c =? DOT then trimStart r else s
  | _, _ => s
  end.

(** [s.match(/\d+/)]: [None] for [null], otherwise element 0 of the match,
    the leftmost maximal run of digits. *)
Fixpoint match_digits (s : jsstring) : option jsstring :=
  match s with
  | [] => None
  | c :: s' => if is_digit c then Some (takeDigits s) else match_digits s'
  end.

Definition digit_value (c : code_unit) : Z := Z.of_N (c - 48).

(** The Numbers [parseInt] can return on a run of decimal digits: an integer
    that a double holds, or [Infinity]. *)
Inductive number :=
| Finite (z : Z)
| Infinity.
Bind Scope Z_scope with number.
Coercion Finite : Z >-> number.

(** The Number value of a non-negative integer [n]. Below 2^53 it is [n].
    From 2^53 on, [n] is rounded to 53 significant bits, to the nearest such
    value and to the even one on a tie; a result of 2^1024 or more is
    [Infinity]. *)
Definition round_to_double (n : Z) : number :=
  if (n <? 2 ^ 53)%Z then Finite n
  else
    let e := (Z.log2 n - 52)%Z in
    let q := (n / 2 ^ e)%Z in
    let r := (n mod 2 ^ e)%Z in
    let half := (2 ^ (e - 1))%Z in
    let q' := if (half <? r)%Z || ((r =? half)%Z && Z.odd q) then (q + 1)%Z else q in
    if (q' * 2 ^ e <? 2 ^ 1024)%Z then Finite (q' * 2 ^ e) else Infinity.

(** [parseInt(s, 10)] on a run of decimal digits, the only argument the
    handler passes: the integer the digits write, as a Number. (Past twenty
    digits ECMAScript lets an engine read the further digits as zeros; the
    rounding here is the exact one, which is what Node does.) *)
Definition parseInt10 (s : jsstring) : number :=
  round_to_double
    (fold_left (fun acc c => (10 * acc + digit_value c)%Z) (takeDigits s) 0%Z).

(** [a.join(sep)] on an array of strings. *)
Fixpoint join (sep : jsstring) (a : list jsstring) : jsstring :=
  match a with
  | [] => []
  | [x] => x
  | x :: rest => x ++ sep ++ join sep rest
  end.

(** [a.slice(1)] *)
Definition slice1 {A} (a : list A) : list A := tl a.

(** ** The two parsers of the handler *)

(** Line 150:
    [resp.split(/\n+/).map(s=>s.replace(/^\d+\.\s*/,'').trim()).filter(Boolean)] *)
Definition parseQuestions (resp : jsstring) : list jsstring :=
  filter truthy_str (map (fun s => trim (strip_ordinal s)) (split_LFs resp)).

Record GradeResult := mkGrade { score : number; feedback : jsstring }.

(** Errors thrown while the handler runs. [Error m] is [new Error(m)] of the
    source; the others are raised by the runtime. *)
Inductive exn :=
| Error (message : jsstring)
| TypeError_undefined (property : jsstring)  (* reading a property of undefined or null *)
| TypeError_convert                          (* a value cannot be converted to a string *)
| FetchRejected.                             (* [fetch] or [resp.json()] rejected *)

Inductive result (A : Type) :=
| Returned (a : A)
| Threw (e : exn).
Arguments Returned {A} a.
Arguments Threw {A} e.

(** Line 159: [resp.split('\n').map(l=>l.trim()).filter(Boolean)] *)
Definition grade_lines (resp : jsstring) : list jsstring :=
  filter truthy_str (map trim (split_LF resp)).

(** Lines 159-161. [lines[0]] is [undefined] when [lines] is empty, and
    [lines[0].match] then throws a TypeError. *)
Definition parseGrade (resp : jsstring) : result GradeResult :=
  let lines := grade_lines resp in
  match lines with
  | [] => Threw (TypeError_undefined (lit "match"))
  | line0 :: _ =>
      let score :=
        match match_digits line0 with
        | Some m => parseInt10 m
        | None => Finite 0
        end in
      let feedback := join [SPACE] (slice1 lines) in
      Returned (mkGrade score feedback)
  end.

(** ** Values carried by JSON bodies *)

(** The values a request field can hold, as far as the handler looks at
    them. [JOther t p] is any value that is not undefined, null, a boolean
    or a string (a number, an array, an object), given by what the handler
    can observe of it: its truth value [t], and what a template literal
    prints for it, [p]; [p] is [None] when the conversion throws, as it does
    for an object whose [toString] and [valueOf] are not functions. *)
Inductive jsval :=
| JUndefined
| JNull
| JBool (b : bool)
| JStr (s : jsstring)
| JOther (truth : bool) (printed : option jsstring).

Fixpoint jsstring_eqb (a b : jsstring) : bool :=
  match a, b with
  | [], [] => true
  | x :: a', y :: b' => (x =? y) && jsstring_eqb a' b'
  | _, _ => false
  end.

(** [v === 'literal'] *)
Definition strict_eq_str (v : jsval) (s : string) : bool :=
  match v with
  | JStr x => jsstring_eqb x (lit s)
  | _ => false
  end.

(** ToBoolean *)
Definition truthy (v : jsval) : bool :=
  match v with
  | JUndefined | JNull => false
  | JBool b => b
  | JStr s => truthy_str s
  | JOther t _ => t
  end.

(** ToString, as applied by [${...}] in a template literal. *)
Definition ToString (v : jsval) : result jsstring :=
  match v with
  | JUndefined => Returned (lit "undefined")
  | JNull => Returned (lit "null")
  | JBool true => Returned (lit "true")
  | JBool false => Returned (lit "false")
  | JStr s => Returned s
  | JOther _ (Some p) => Returned p
  | JOther _ None => Threw TypeError_convert
  end.

(** What [${v}] contributes to the text of a template literal, once [v] has
    been converted. (For a [v] that does not convert there is no text: the
    literal throws, see [template], and the empty string here is never
    used.) *)
Definition printed_text (v : jsval) : jsstring :=
  match ToString v with
  | Returned s => s
  | Threw _ => []
  end.

(** [v || 'literal'] *)
Definition or_default (v : jsval) (d : string) : jsval :=
  if truthy v then v else JStr (lit d).

(** ** Requests and responses of [/api/interview] *)

Record Body := mkBody {
  action : jsval;
  b_role : jsval;
  b_company : jsval;
  b_program : jsval;
  b_question : jsval;
  b_answer : jsval
}.

(** [{}], the default of [req.body || {}]. *)
Definition empty_body : Body :=
  mkBody JUndefined JUndefined JUndefined JUndefined JUndefined JUndefined.

Record request := mkRequest {
  method : jsstring;
  body : option Body
}.

(** What [err.message || String(err)] evaluates to: a text fixed by the
    source, or the message the runtime gave to an error of its own. *)
Inductive error_text :=
| Text (s : jsstring)
| RuntimeText (e : exn).

(** A Number as JSON carries it: [JSON.stringify] writes [Infinity] as
    [null]; a finite Number comes back from [JSON.parse] as it was. *)
Inductive json_number :=
| Num (z : Z)
| Null.
Bind Scope Z_scope with json_number.
Coercion Num : Z >-> json_number.
(* An integer under [Some] is read as a JSON number where one is expected. *)
Arguments Some {A} & a.

Definition to_json (n : number) : json_number :=
  match n with
  | Finite z => Num z
  | Infinity => Null
  end.

(** The bodies of the responses, as they reach the caller. *)
Inductive json_body :=
| QuestionsBody (questions : list jsstring)             (* [{ questions }] *)
| GradeBody (score : json_number) (feedback : jsstring) (* [{ score, feedback }] *)
| ErrorBody (error : error_text).                       (* [{ error }] *)

Record response := mkResponse {
  status : Z;
  payload : option json_body     (* [None]: [.end()] without a body *)
}.

(** ** The handler's effects: outbound calls to the model service *)

(** The POST of [openaiCompletion] to the chat completions endpoint. *)
Record outbound := mkOutbound {
  url : jsstring;
  bearer : jsstring;
  model : jsstring;
  content : jsstring;
  max_tokens : Z
}.

(** What comes back from that POST, as far as [openaiCompletion] looks. *)
Inductive upstream_reply :=
| UpRejected                           (* [fetch] or [resp.json()] rejects *)
| UpNoChoices                          (* [data.choices] missing or [data.choices[0]] falsy *)
| UpNoMessage                          (* [data.choices[0].message] is undefined *)
| UpContent (c : option jsstring).     (* [message.content]: a string, or null/absent *)

(** Server-side computations: a value, a thrown error, or an outbound call
    followed by the rest of the computation. *)
Inductive srv (A : Type) : Type :=
| SRet (a : A)
| SThrow (e : exn)
| SFetch (c : outbound) (k : upstream_reply -> srv A).
Arguments SRet {A} a.
Arguments SThrow {A} e.
Arguments SFetch {A} c k.

Fixpoint sbind {A B} (m : srv A) (f : A -> srv B) : srv B :=
  match m with
  | SRet a => f a
  | SThrow e => SThrow e
  | SFetch c k => SFetch c (fun r => sbind (k r) f)
  end.

(** [try { m } catch (err) { h err }] *)
Fixpoint try_catch {A} (m : srv A) (h : exn -> srv A) : srv A :=
  match m with
  | SRet a => SRet a
  | SThrow e => h e
  | SFetch c k => SFetch c (fun r => try_catch (k r) h)
  end.

Notation "x <- m ;; f" := (sbind m (fun x => f))
  (at level 61, m at next level, right associativity).

(** Running a computation against the model service; the second component
    lists the outbound calls made, in order. *)
Fixpoint run_srv {A} (up : outbound -> upstream_reply) (m : srv A)
  : result A * list outbound :=
  match m with
  | SRet a => (Returned a, [])
  | SThrow e => (Threw e, [])
  | SFetch c k => let (r, log) := run_srv up (k (up c)) in (r, c :: log)
  end.

(** Lines 172-188. [key] is [process.env.OPENAI_API_KEY]. *)
Definition openaiCompletion (key : option jsstring) (prompt : jsstring)
  : srv (option jsstring) :=
  match key with
  | None | Some [] => SThrow (Error (lit "OPENAI_API_KEY not set"))
  | Some k =>
      SFetch (mkOutbound (lit "https://api.openai.com/v1/chat/completions")
                         k (lit "gpt-4o-mini") prompt 700)
        (fun data =>
           match data with
           | UpRejected => SThrow FetchRejected
           | UpNoChoices => SThrow (Error (lit "OpenAI error"))
           | UpNoMessage => SThrow (TypeError_undefined (lit "content"))
           | UpContent c => SRet c
           end)
  end.

Definition promptBase : jsstring :=
  lit "You are an expert interviewer and interviewer coach. Be concise and use numbered lists where appropriate.".

(** A template literal converts its substitutions from left to right and
    throws as soon as one conversion does; when none does, its value is
    [text]. *)
Fixpoint template (substitutions : list jsval) (text : jsstring) : result jsstring :=
  match substitutions with
  | [] => Returned text
  | v :: vs =>
      match ToString v with
      | Returned _ => template vs text
      | Threw e => Threw e
      end
  end.

(** Line 146: the text of the prompt, *)
Definition questionPrompt (b : Body) : jsstring :=
  promptBase ++ [LF; LF]
  ++ lit "Generate 8 interview questions tailored to the role: "
  ++ printed_text (b_role b)
  ++ lit ". Company: " ++ printed_text (or_default (b_company b) "generic")
  ++ lit ". Program: " ++ printed_text (or_default (b_program b) "general")
  ++ lit ". Include a mix of behavioral, technical and role-specific questions. For each question include a short tag in parentheses like (behavioral) or (technical).".

(** and its evaluation. *)
Definition questionTemplate (b : Body) : result jsstring :=
  template [b_role b;
            or_default (b_company b) "generic";
            or_default (b_program b) "general"]
           (questionPrompt b).

(** Line 155: the text of the prompt, *)
Definition gradingPrompt (b : Body) : jsstring :=
  promptBase ++ [LF; LF]
  ++ lit "You are grading an interview answer. Role: " ++ printed_text (b_role b)
  ++ lit ". Company: " ++ printed_text (or_default (b_company b) "generic")
  ++ lit ". Program: " ++ printed_text (or_default (b_program b) "general")
  ++ lit "." ++ [LF; LF]
  ++ lit "Question: " ++ printed_text (b_question b) ++ [LF; LF]
  ++ lit "Candidate answer: " ++ printed_text (b_answer b) ++ [LF; LF]
  ++ lit "Provide:" ++ [LF]
  ++ lit "1) A numeric score from 1-10 (only the number on the first line)." ++ [LF]
  ++ lit "2) A short paragraph (1-3 sentences) explaining the score and 3 bullet point suggestions to improve the answer." ++ [LF]
  ++ lit "Keep the response JSON-stringifiable.".

(** and its evaluation. *)
Definition gradingTemplate (b : Body) : result jsstring :=
  template [b_role b;
            or_default (b_company b) "generic";
            or_default (b_program b) "general";
            b_question b;
            b_answer b]
           (gradingPrompt b).

(** [resp.split(...)] on what [openaiCompletion] returned: a TypeError when
    the content is not a string. *)
Definition as_string (resp : option jsstring) : srv jsstring :=
  match resp with
  | Some s => SRet s
  | None => SThrow (TypeError_undefined (lit "split"))
  end.

Definition lift_result {A} (r : result A) : srv A :=
  match r with
  | Returned a => SRet a
  | Threw e => SThrow e
  end.

(** [err.message || String(err)] *)
Definition error_message (err : exn) : error_text :=
  match err with
  | Error [] => Text (lit "Error")
  | Error m => Text m
  | e => RuntimeText e
  end.

(** [res.json(b)], with the default status 200, and [res.status(n).json(b)] *)
Definition json (b : json_body) : response := mkResponse 200 (Some b).
Definition status_json (n : Z) (b : json_body) : response := mkResponse n (Some b).

(** Lines 139-170 *)
Definition handler (key : option jsstring) (req : request) : srv response :=
  if negb (jsstring_eqb (method req) (lit "POST")) then SRet (mkResponse 405 None)
  else
    let b := match body req with Some b => b | None => empty_body end in
    try_catch
      (if strict_eq_str (action b) "generate_questions" then
         prompt <- lift_result (questionTemplate b) ;;
         resp <- openaiCompletion key prompt ;;
         text <- as_string resp ;;
         SRet (json (QuestionsBody (parseQuestions text)))
       else if strict_eq_str (action b) "grade_answer" then
         prompt <- lift_result (gradingTemplate b) ;;
         resp <- openaiCompletion key prompt ;;
         text <- as_string resp ;;
         g <- lift_result (parseGrade text) ;;
         SRet (json (GradeBody (to_json (score g)) (feedback g)))
       else
         SRet (status_json 400 (ErrorBody (Text (lit "invalid action")))))
      (fun err => SRet (status_json 500 (ErrorBody (error_message err)))).

(** ** The page: session state of the [Home] component *)

(** An entry of [history]. [data.score] and [data.feedback] are [undefined]
    ([None]) when the response body does not carry them. *)
Record HistoryEntry := mkEntry {
  h_question : jsstring;
  h_answer : jsstring;
  h_score : option json_number;
  h_feedback : option jsstring
}.

(** The [useState] cells of lines 23-30. *)
Record SessionState := mkState {
  role : jsstring;
  company : jsstring;
  program : jsstring;
  questions : list jsstring;
  currentIndex : Z;
  answer : jsstring;
  history : list HistoryEntry;
  loading : bool
}.

Definition initial_state : SessionState :=
  mkState (lit "Software Engineer") (lit "Acme Corp") (lit "New Grad")
          [] 0 [] [] false.

Definition setRole v st :=
  mkState v (company st) (program st) (questions st) (currentIndex st)
          (answer st) (history st) (loading st).
Definition setCompany v st :=
  mkState (role st) v (program st) (questions st) (currentIndex st)
          (answer st) (history st) (loading st).
Definition setProgram v st :=
  mkState (role st) (company st) v (questions st) (currentIndex st)
          (answer st) (history st) (loading st).
Definition setQuestions v st :=
  mkState (role st) (company st) (program st) v (currentIndex st)
          (answer st) (history st) (loading st).
(** [setCurrentIndex] and [setHistory] take an updater function, as the
    source calls them ([setCurrentIndex(0)] is the constant updater). *)
Definition setCurrentIndex (f : Z -> Z) st :=
  mkState (role st) (company st) (program st) (questions st)
          (f (currentIndex st)) (answer st) (history st) (loading st).
Definition setAnswer v st :=
  mkState (role st) (company st) (program st) (questions st) (currentIndex st)
          v (history st) (loading st).
Definition setHistory (f : list HistoryEntry -> list HistoryEntry) st :=
  mkState (role st) (company st) (program st) (questions st) (currentIndex st)
          (answer st) (f (history st)) (loading st).
Definition setLoading v st :=
  mkState (role st) (company st) (program st) (questions st) (currentIndex st)
          (answer st) (history st) v.

(** [a[i]] for a Number [i] holding an integer: [None] is [undefined]. *)
Definition index {A} (a : list A) (i : Z) : option A :=
  if (i <? 0)%Z then None else nth_error a (Z.to_nat i).

(** [a.length] *)
Definition len {A} (a : list A) : Z := Z.of_nat (List.length a).

(** What [await fetch('/api/interview', ...)] gives the page. *)
Inductive http_result :=
| NetFail                   (* the promise of [fetch] rejects *)
| Http (r : response).

(** [await res.json()]; it rejects when the response has no JSON body. *)
Definition res_json (res : http_result) : result json_body :=
  match res with
  | NetFail => Threw FetchRejected
  | Http r =>
      match payload r with
      | Some b => Returned b
      | None => Threw FetchRejected
      end
  end.

(** [data.questions || []], [data.score], [data.feedback] *)
Definition data_questions (data : json_body) : list jsstring :=
  match data with
  | QuestionsBody qs => qs
  | _ => []
  end.
Definition data_score (data : json_body) : option json_number :=
  match data with
  | GradeBody s _ => Some s
  | _ => None
  end.
Definition data_feedback (data : json_body) : option jsstring :=
  match data with
  | GradeBody _ f => Some f
  | _ => None
  end.

(** An async function of the page: it has settled (fulfilled or rejected)
    in some state, or it awaits the answer to a request. *)
Inductive client :=
| Settled (outcome : result unit) (st : SessionState)
| Await (req : request) (k : http_result -> client).

Definition POST (b : Body) : request := mkRequest (lit "POST") (Some b).

(** The bodies of lines 37 and 53-60, before [JSON.stringify]. *)
Definition generate_body (st : SessionState) : Body :=
  mkBody (JStr (lit "generate_questions"))
         (JStr (role st)) (JStr (company st)) (JStr (program st))
         JUndefined JUndefined.
Definition grade_body (st : SessionState) (q : jsstring) : Body :=
  mkBody (JStr (lit "grade_answer"))
         (JStr (role st)) (JStr (company st)) (JStr (program st))
         (JStr q) (JStr (answer st)).

(** Lines 32-45 *)
Definition fetchQuestions (st : SessionState) : client :=
  let st1 := setLoading true st in
  Await (POST (generate_body st))
    (fun res =>
       match res_json res with
       | Threw e => Settled (Threw e) st1
       | Returned data =>
           Settled (Returned tt)
             (setLoading false
               (setAnswer []
                 (setHistory (fun _ => [])
                   (setCurrentIndex (fun _ => 0%Z)
                     (setQuestions (data_questions data) st1)))))
       end).

(** [questions[currentIndex]] when it is truthy, that is, when it exists and
    is not the empty string. *)
Definition selected (st : SessionState) : option jsstring :=
  match index (questions st) (currentIndex st) with
  | Some q => if truthy_str q then Some q else None
  | None => None
  end.

(** Lines 47-73 *)
Definition gradeAnswer (st : SessionState) : client :=
  match selected st with
  | None => Settled (Returned tt) st
  | Some q =>
      let st1 := setLoading true st in
      Await (POST (grade_body st q))
        (fun res =>
           match res_json res with
           | Threw e => Settled (Threw e) st1
           | Returned data =>
               let entry := mkEntry q (answer st) (data_score data) (data_feedback data) in
               Settled (Returned tt)
                 (setLoading false
                   (setCurrentIndex (fun i => Z.min (i + 1) (len (questions st) - 1))
                     (setAnswer []
                       (setHistory (fun h => entry :: h) st1))))
           end)
  end.

(** Line 88, the Reset button *)
Definition reset (st : SessionState) : SessionState :=
  setAnswer [] (setHistory (fun _ => []) (setQuestions [] st)).

(** Lines 105 and 106, the Prev and Next buttons *)
Definition previous (st : SessionState) : SessionState :=
  setCurrentIndex (fun i => Z.max 0 (i - 1)) st.
Definition next (st : SessionState) : SessionState :=
  setCurrentIndex (fun i => Z.min (len (questions st) - 1) (i + 1)) st.

(** Running an async function of the page against the API: the state in
    which it settles, with its outcome and the outbound calls the API made
    for it. *)
Fixpoint run_client (api : request -> http_result * list outbound) (c : client)
  : result unit * SessionState * list outbound :=
  match c with
  | Settled o st => (o, st, [])
  | Await req k =>
      let (res, log) := api req in
      let '(o, st, log') := run_client api (k res) in
      (o, st, log ++ log')
  end.

(** The API route served by [handler]. The handler catches what it throws
    ([handler_returns] below), so the last case does not occur. *)
Definition serve (key : option jsstring) (up : outbound -> upstream_reply)
  (req : request) : http_result * list outbound :=
  match run_srv up (handler key req) with
  | (Returned r, log) => (Http r, log)
  | (Threw _, log) => (NetFail, log)
  end.

(** *** User events *)

(** What the user can do on the page. The two clicks that start a request
    carry the answer the page receives for it. *)
Inductive event :=
| TypeRole (v : jsstring)
| TypeCompany (v : jsstring)
| TypeProgram (v : jsstring)
| TypeAnswer (v : jsstring)
| ClickFetch (res : http_result)
| ClickReset
| ClickSubmit (res : http_result)
| ClickPrev
| ClickNext.

(** Line 92: the answer box and the Submit, Prev and Next buttons are
    rendered only when [questions.length !== 0]. *)
Definition rendered (st : SessionState) (ev : event) : bool :=
  match ev with
  | TypeAnswer _ | ClickSubmit _ | ClickPrev | ClickNext =>
      negb (len (questions st) =? 0)%Z
  | _ => true
  end.

Definition settle (res : http_result) (c : client) : SessionState :=
  snd (fst (run_client (fun _ => (res, [])) c)).

(** The state after an event has been handled ([None]: the control is not
    on the page), when the event is handled to completion, the answer to its
    request included, before the next one. This is the page used in turn;
    [occur] below also lets events happen while requests are in flight, and
    [handle_in_turn] relates the two. *)
Definition handle (st : SessionState) (ev : event) : option SessionState :=
  if rendered st ev then
    Some match ev with
         | TypeRole v => setRole v st
         | TypeCompany v => setCompany v st
         | TypeProgram v => setProgram v st
         | TypeAnswer v => setAnswer v st
         | ClickFetch res => settle res (fetchQuestions st)
         | ClickReset => reset st
         | ClickSubmit res => settle res (gradeAnswer st)
         | ClickPrev => previous st
         | ClickNext => next st
         end
  else None.

Fixpoint handle_all (st : SessionState) (evs : list event) : option SessionState :=
  match evs with
  | [] => Some st
  | ev :: evs' =>
      match handle st ev with
      | Some st' => handle_all st' evs'
      | None => None
      end
  end.

(** The states of the page used in turn, each event handled to completion
    before the next. *)
Inductive reachable : SessionState -> Prop :=
| reach_init : reachable initial_state
| reach_step st ev st' :
    reachable st -> handle st ev = Some st' -> reachable st'.

(** The invariant of the session state: [0 <= currentIndex < max(1, questions.length)]. *)
Definition index_in_range (st : SessionState) : Prop :=
  (0 <= currentIndex st < Z.max 1 (len (questions st)))%Z.

(** ** Vocabulary of the statements *)

(** The value of a decimal numeral, digit by digit from the left, each
    weighted by its power of ten. *)
Fixpoint decimal_value (ds : jsstring) : Z :=
  match ds with
  | [] => 0
  | d :: r => digit_value d * 10 ^ len r + decimal_value r
  end%Z.

Definition no_digit (s : jsstring) : bool := forallb (fun c => negb (is_digit c)) s.
Definition all_digits (s : jsstring) : bool := forallb is_digit s.
Definition all_spaces (s : jsstring) : bool := forallb is_space s.
Definition no_LF (s : jsstring) : bool := forallb (fun c => negb (c =? LF)) s.

(** [s] is empty or begins with something else than a digit. *)
Definition not_digit_first (s : jsstring) : bool :=
  match s with
  | [] => true
  | c :: _ => negb (is_digit c)
  end.

(** [first_run_value line v]: [v] is the number written by the first run of
    digits of [line], or 0 when [line] has no digit. *)
Inductive first_run_value : jsstring -> Z -> Prop :=
| frv_none line :
    no_digit line = true -> first_run_value line 0
| frv_run before run after :
    no_digit before = true ->
    run <> [] -> all_digits run = true ->
    not_digit_first after = true ->
    first_run_value (before ++ run ++ after) (decimal_value run).

(** A line of a numbered list: the ordinal, a period, white space, and the
    text of the question. *)
Record numbered_line := mkLine {
  ordinal : jsstring;
  gap : jsstring;
  qtext : jsstring
}.

Definition line_text (l : numbered_line) : jsstring :=
  ordinal l ++ [DOT] ++ gap l ++ qtext l.

(** Well-formed: the ordinal is a non-empty run of digits, the gap is
    non-empty white space, the question text is not blank, and the line holds
    no line feed. *)
Definition well_formed (l : numbered_line) : bool :=
  truthy_str (ordinal l) && all_digits (ordinal l)
  && truthy_str (gap l) && all_spaces (gap l) && no_LF (gap l)
  && truthy_str (trim (qtext l)) && no_LF (qtext l).

(** The segments of a text between line feeds: a numbered line, or nothing
    at all (a blank line, or the end of a text that ends in a line feed). *)
Definition segment_text (seg : option numbered_line) : jsstring :=
  match seg with
  | Some l => line_text l
  | None => []
  end.

Definition numbered_text (segs : list (option numbered_line)) : jsstring :=
  join [LF] (map segment_text segs).

Fixpoint lines_of (segs : list (option numbered_line)) : list numbered_line :=
  match segs with
  | [] => []
  | Some l :: r => l :: lines_of r
  | None :: r => lines_of r
  end.

(** The line with its ordinal marker stripped and trimmed. *)
Definition question_of (l : numbered_line) : jsstring := trim (qtext l).

(** The entries [parseQuestions] keeps of the segments of a text. *)
Definition kept (segs : list jsstring) : list jsstring :=
  filter truthy_str (map (fun s => trim (strip_ordinal s)) segs).

(** The score the handler computes from the first line (line 160). *)
Definition score_of (line0 : jsstring) : number :=
  match match_digits line0 with
  | Some m => parseInt10 m
  | None => Finite 0
  end.

(** The order of Numbers, [Infinity] above every integer. *)
Definition number_le (a b : number) : Prop :=
  match a, b with
  | Finite x, Finite y => (x <= y)%Z
  | _, Infinity => True
  | Infinity, Finite _ => False
  end.

(** What every event preserves, Reset included: the index is not negative,
    and it selects a question whenever there is one. *)
Definition index_selects (st : SessionState) : Prop :=
  (0 <= currentIndex st)%Z
  /\ (questions st <> [] -> (currentIndex st < len (questions st))%Z).

(** The model call of a stage fails: [openaiCompletion] throws. *)
Definition model_call_fails (key : option jsstring)
  (up : outbound -> upstream_reply) (prompt : jsstring) : Prop :=
  exists e, fst (run_srv up (openaiCompletion key prompt)) = Threw e.

(** [s] is empty or begins with something else than white space. *)
Definition not_space_first (s : jsstring) : bool :=
  match s with
  | [] => true
  | c :: _ => negb (is_space c)
  end.

(** No white space at either end. *)
Definition trimmed (s : jsstring) : bool :=
  not_space_first s && not_space_first (rev s).


(** The call [openaiCompletion] makes for a prompt, given a key. *)
Definition completion_call (k prompt : jsstring) : outbound :=
  mkOutbound (lit "https://api.openai.com/v1/chat/completions")
             k (lit "gpt-4o-mini") prompt 700.

(** The text the model call of a stage returns, when the key is set and the
    service answers with a string as [choices[0].message.content]. *)
Definition model_text (key : option jsstring) (up : outbound -> upstream_reply)
  (prompt : jsstring) : option jsstring :=
  match key with
  | Some (c :: k) =>
      match up (completion_call (c :: k) prompt) with
      | UpContent (Some text) => Some text
      | _ => None
      end
  | _ => None
  end.

(** The grade of a text, when [parseGrade] returns one. *)
Definition grade_of (text : option jsstring) : option GradeResult :=
  match text with
  | Some t => match parseGrade t with Returned g => Some g | Threw _ => None end
  | None => None
  end.

(** *** Requests in flight

    The page disables nothing while a request is pending: the user can go
    on typing and clicking, and the answers come back in any order. An async
    function that awaits its answer holds in its closure the values of the
    render in which it was called. *)
Inductive pending :=
| PendingFetch (closure : SessionState)                 (* [fetchQuestions] at line 34 *)
| PendingGrade (closure : SessionState) (q : jsstring). (* [gradeAnswer] at line 50 *)

Definition request_of (pd : pending) : request :=
  match pd with
  | PendingFetch closure => POST (generate_body closure)
  | PendingGrade closure q => POST (grade_body closure q)
  end.

(** Lines 39-44 and 62-72: what the function does when its answer arrives,
    on the state of that moment. The setters with an updater work on that
    state; [questions], [currentIndex] and [answer] read outside an updater
    are those of the closure. When the await rejects nothing more is set. *)
Definition resume (pd : pending) (res : http_result) (cur : SessionState)
  : SessionState :=
  match res_json res with
  | Threw _ => cur
  | Returned data =>
      match pd with
      | PendingFetch _ =>
          setLoading false
            (setAnswer []
              (setHistory (fun _ => [])
                (setCurrentIndex (fun _ => 0%Z)
                  (setQuestions (data_questions data) cur))))
      | PendingGrade closure q =>
          let entry := mkEntry q (answer closure) (data_score data) (data_feedback data) in
          setLoading false
            (setCurrentIndex (fun i => Z.min (i + 1) (len (questions closure) - 1))
              (setAnswer []
                (setHistory (fun h => entry :: h) cur)))
      end
  end.

(** The page: its state and the requests that are still to be answered. *)
Record page := mkPage {
  cells : SessionState;
  in_flight : list pending
}.

Inductive user :=
| EnterRole (v : jsstring)
| EnterCompany (v : jsstring)
| EnterProgram (v : jsstring)
| EnterAnswer (v : jsstring)
| PressFetch
| PressReset
| PressSubmit
| PressPrev
| PressNext.

(** What happens to the page: the user does something, or the answer to the
    request at position [n] among those in flight arrives. *)
Inductive occurrence :=
| User (u : user)
| Answer (n : nat) (res : http_result).

(** Line 92 again. *)
Definition shown (st : SessionState) (u : user) : bool :=
  match u with
  | EnterAnswer _ | PressSubmit | PressPrev | PressNext =>
      negb (len (questions st) =? 0)%Z
  | _ => true
  end.

Definition without {A} (n : nat) (l : list A) : list A :=
  firstn n l ++ skipn (S n) l.

Definition act (u : user) (p : page) : page :=
  let st := cells p in
  match u with
  | EnterRole v => mkPage (setRole v st) (in_flight p)
  | EnterCompany v => mkPage (setCompany v st) (in_flight p)
  | EnterProgram v => mkPage (setProgram v st) (in_flight p)
  | EnterAnswer v => mkPage (setAnswer v st) (in_flight p)
  | PressFetch => mkPage (setLoading true st) (in_flight p ++ [PendingFetch st])
  | PressReset => mkPage (reset st) (in_flight p)
  | PressSubmit =>
      match selected st with
      | None => p
      | Some q => mkPage (setLoading true st) (in_flight p ++ [PendingGrade st q])
      end
  | PressPrev => mkPage (previous st) (in_flight p)
  | PressNext => mkPage (next st) (in_flight p)
  end.

(** [None]: the control is not on the page, or no such request is in
    flight. *)
Definition occur (p : page) (o : occurrence) : option page :=
  match o with
  | User u => if shown (cells p) u then Some (act u p) else None
  | Answer n res =>
      match nth_error (in_flight p) n with
      | Some pd => Some (mkPage (resume pd res (cells p)) (without n (in_flight p)))
      | None => None
      end
  end.

Definition start : page := mkPage initial_state [].

(** The pages reached from the start by occurrences that [allowed] admits. *)
Inductive reaches (allowed : page -> occurrence -> Prop) : page -> Prop :=
| reaches_start : reaches allowed start
| reaches_step p o p' :
    reaches allowed p -> allowed p o -> occur p o = Some p' ->
    reaches allowed p'.

(** No restriction: any interleaving of user events and answers. *)
Definition anyhow (p : page) (o : occurrence) : Prop := True.

(** The page used in turn: the user waits for the answer before doing
    anything else. *)
Definition in_turn (p : page) (o : occurrence) : Prop :=
  forall u, o = User u -> in_flight p = [].

(** The answers are those the handler gives to the request that was sent,
    for some key and some behaviour of the model service. *)
Definition served (p : page) (o : occurrence) : Prop :=
  forall n res pd, o = Answer n res -> nth_error (in_flight p) n = Some pd ->
    exists key up, res = fst (serve key up (request_of pd)).

Definition served_in_turn (p : page) (o : occurrence) : Prop :=
  served p o /\ in_turn p o.

Fixpoint occur_all (p : page) (os : list occurrence) : option page :=
  match os with
  | [] => Some p
  | o :: os' =>
      match occur p o with
      | Some p' => occur_all p' os'
      | None => None
      end
  end.

(** A grading in flight was started on a selected question. *)
Definition pending_selected (pd : pending) : Prop :=
  match pd with
  | PendingFetch _ => True
  | PendingGrade closure q => selected closure = Some q
  end.

(** A grading in flight was started on the questions now on the page. *)
Definition pending_current (cur : SessionState) (pd : pending) : Prop :=
  match pd with
  | PendingFetch _ => True
  | PendingGrade closure q =>
      selected closure = Some q /\ questions closure = questions cur
  end.

(** * Properties *)

(** ** The examples of the specification *)

Example parseQuestions_ex :
  parseQuestions (lit "1. Tell me about yourself" ++ [LF] ++ lit "2. Why this role?")
  = [lit "Tell me about yourself"; lit "Why this role?"].
Proof. reflexivity. Qed.

Example parseGrade_ex :
  parseGrade (lit "8" ++ [LF] ++ lit "Solid answer with clear structure.")
  = Returned (mkGrade 8 (lit "Solid answer with clear structure.")).
Proof. reflexivity. Qed.

Example parseGrade_no_digit :
  parseGrade (lit "Great job overall") = Returned (mkGrade 0 []).
Proof. reflexivity. Qed.

(** The code departs from the expected [{score: 0, feedback: ""}] here. *)
Example parseGrade_empty_string :
  parseGrade [] = Threw (TypeError_undefined (lit "match")).
Proof. reflexivity. Qed.

Example parseQuestions_empty_string : parseQuestions [] = [].
Proof. reflexivity. Qed.

Example parseGrade_large_score :
  parseGrade (lit "Score: 42 out of 10") = Returned (mkGrade 42 []).
Proof. reflexivity. Qed.

(** ** Character classes *)

Lemma digit_not_LF c : is_digit c = true -> (c =? LF) = false.
Proof.
  unfold is_digit, LF. intros H.
  apply andb_true_iff in H as [H _]. apply N.leb_le in H.
  apply N.eqb_neq. lia.
Qed.

Lemma digit_not_space c : is_digit c = true -> is_space c = false.
Proof.
  unfold is_digit. intros H.
  apply andb_true_iff in H as [H1 H2].
  apply N.leb_le in H1. apply N.leb_le in H2.
  unfold is_space.
  repeat match goal with
         | |- context [ (c =? ?k) ] =>
             replace (c =? k) with false by (symmetry; apply N.eqb_neq; lia)
         end.
  replace (8192 <=? c) with false by (symmetry; apply N.leb_gt; lia).
  reflexivity.
Qed.

Lemma all_digits_no_LF s : all_digits s = true -> no_LF s = true.
Proof.
  induction s as [|c s IH]; simpl; [reflexivity|].
  intros H. apply andb_true_iff in H as [Hc Hs].
  rewrite (digit_not_LF c Hc). simpl. auto.
Qed.

Lemma no_LF_app s t : no_LF (s ++ t) = no_LF s && no_LF t.
Proof. apply forallb_app. Qed.

(** ** Trimming *)

Lemma trimStart_spaces ws r : all_spaces ws = true -> trimStart (ws ++ r) = trimStart r.
Proof.
  induction ws as [|c ws IH]; simpl; [reflexivity|].
  intros H. apply andb_true_iff in H as [Hc Hs]. rewrite Hc. auto.
Qed.

Lemma trimStart_idem s : trimStart (trimStart s) = trimStart s.
Proof.
  induction s as [|c s IH]; simpl; [reflexivity|].
  destruct (is_space c) eqn:Hc; [assumption|].
  simpl. rewrite Hc. reflexivity.
Qed.

Lemma trim_trimStart s : trim (trimStart s) = trim s.
Proof. unfold trim. rewrite trimStart_idem. reflexivity. Qed.

Lemma trim_spaces_app ws r : all_spaces ws = true -> trim (ws ++ r) = trim r.
Proof. intros H. unfold trim. rewrite trimStart_spaces by assumption. reflexivity. Qed.

Lemma trimStart_blank s : all_spaces s = true -> trimStart s = [].
Proof.
  intros H. rewrite <- (app_nil_r s). rewrite trimStart_spaces by assumption.
  reflexivity.
Qed.

Lemma trim_blank s : all_spaces s = true -> trim s = [].
Proof. intros H. unfold trim. rewrite trimStart_blank by assumption. reflexivity. Qed.

(** ** The ordinal marker *)

Lemma takeDigits_run ds c r :
  all_digits ds = true -> is_digit c = false -> takeDigits (ds ++ c :: r) = ds.
Proof.
  induction ds as [|d ds IH]; simpl; intros H Hc.
  - rewrite Hc. reflexivity.
  - apply andb_true_iff in H as [Hd Hs]. rewrite Hd. f_equal. auto.
Qed.

Lemma dropDigits_run ds c r :
  all_digits ds = true -> is_digit c = false -> dropDigits (ds ++ c :: r) = c :: r.
Proof.
  induction ds as [|d ds IH]; simpl; intros H Hc.
  - rewrite Hc. reflexivity.
  - apply andb_true_iff in H as [Hd Hs]. rewrite Hd. auto.
Qed.

Lemma strip_ordinal_marker ds r :
  ds <> [] -> all_digits ds = true ->
  strip_ordinal (ds ++ DOT :: r) = trimStart r.
Proof.
  intros Hne Hds. unfold strip_ordinal.
  rewrite takeDigits_run, dropDigits_run by (assumption || reflexivity).
  destruct ds; [contradiction|]. reflexivity.
Qed.

Lemma truthy_str_true (s : jsstring) : truthy_str s = true <-> s <> [].
Proof. destruct s; simpl; split; intros; congruence. Qed.

Lemma well_formed_inv l :
  well_formed l = true ->
  ordinal l <> [] /\ all_digits (ordinal l) = true /\
  all_spaces (gap l) = true /\ no_LF (gap l) = true /\
  trim (qtext l) <> [] /\ no_LF (qtext l) = true.
Proof.
  unfold well_formed. rewrite !andb_true_iff, !truthy_str_true. tauto.
Qed.

Lemma well_formed_question l :
  well_formed l = true ->
  trim (strip_ordinal (line_text l)) = question_of l /\ question_of l <> [].
Proof.
  intros H. apply well_formed_inv in H as (Hne & Hds & Hws & _ & Hq & _).
  unfold line_text, question_of. split; [|assumption].
  simpl. rewrite strip_ordinal_marker by assumption.
  rewrite trim_trimStart. apply trim_spaces_app. assumption.
Qed.

Lemma well_formed_no_LF l : well_formed l = true -> no_LF (line_text l) = true.
Proof.
  intros H. apply well_formed_inv in H as (_ & Hds & _ & Hg & _ & Hq).
  unfold line_text. rewrite !no_LF_app, (all_digits_no_LF _ Hds), Hg, Hq.
  reflexivity.
Qed.

(** ** Splitting at line feeds *)

Lemma split_LFs_not_nil s : split_LFs s <> [].
Proof.
  induction s as [|c s IH]; simpl; [discriminate|].
  destruct (c =? LF).
  - destruct s as [|c' s']; [discriminate|].
    destruct (c' =? LF); [assumption|discriminate].
  - destruct (split_LFs s); discriminate.
Qed.

Lemma split_LF_not_nil s : split_LF s <> [].
Proof.
  induction s as [|c s IH]; simpl; [discriminate|].
  destruct (c =? LF); [discriminate|].
  destruct (split_LF s); discriminate.
Qed.

(** A prefix without line feed goes to the front of the first segment. *)
Lemma split_LFs_prefix s r :
  no_LF s = true ->
  split_LFs (s ++ r) = (s ++ hd [] (split_LFs r)) :: tl (split_LFs r).
Proof.
  induction s as [|c s IH]; simpl; intros H.
  - pose proof (split_LFs_not_nil r). destruct (split_LFs r); [contradiction|reflexivity].
  - apply andb_true_iff in H as [Hc Hs]. apply negb_true_iff in Hc.
    rewrite Hc, (IH Hs). reflexivity.
Qed.

Lemma split_LF_prefix s r :
  no_LF s = true ->
  split_LF (s ++ r) = (s ++ hd [] (split_LF r)) :: tl (split_LF r).
Proof.
  induction s as [|c s IH]; simpl; intros H.
  - pose proof (split_LF_not_nil r). destruct (split_LF r); [contradiction|reflexivity].
  - apply andb_true_iff in H as [Hc Hs]. apply negb_true_iff in Hc.
    rewrite Hc, (IH Hs). reflexivity.
Qed.

(** [split('\n')] undoes [join('\n')] on segments without line feed. *)
Lemma split_LF_join segs :
  segs <> [] -> forallb no_LF segs = true ->
  split_LF (join [LF] segs) = segs.
Proof.
  induction segs as [|x segs IH]; [congruence|].
  intros _ H. simpl in H. apply andb_true_iff in H as [Hx Hs].
  destruct segs as [|y segs].
  - simpl. rewrite <- (app_nil_r x) at 1. rewrite split_LF_prefix by assumption.
    simpl. rewrite app_nil_r. reflexivity.
  - change (join [LF] (x :: y :: segs)) with (x ++ LF :: join [LF] (y :: segs)).
    rewrite split_LF_prefix by assumption.
    change (split_LF (LF :: join [LF] (y :: segs)))
      with ([] :: split_LF (join [LF] (y :: segs))).
    rewrite IH by (assumption || discriminate).
    simpl. rewrite app_nil_r. reflexivity.
Qed.

Lemma join_split_LF s : join [LF] (split_LF s) = s.
Proof.
  induction s as [|c s IH]; simpl; [reflexivity|].
  destruct (c =? LF) eqn:Hc.
  - apply N.eqb_eq in Hc. subst c.
    pose proof (split_LF_not_nil s).
    destruct (split_LF s) as [|y l] eqn:E; [contradiction|].
    change (join [LF] ([] :: y :: l)) with (LF :: join [LF] (y :: l)).
    rewrite IH. reflexivity.
  - pose proof (split_LF_not_nil s).
    destruct (split_LF s) as [|y l] eqn:E; [contradiction|].
    destruct l as [|z l]; simpl in *; rewrite <- IH; reflexivity.
Qed.

(** A line feed at the front only adds an empty segment, which is dropped. *)
Lemma split_LFs_leading_LF r :
  hd [] (split_LFs (LF :: r)) = [] /\
  kept (tl (split_LFs (LF :: r))) = kept (split_LFs r).
Proof.
  induction r as [|c r IH].
  - split; reflexivity.
  - change (split_LFs (LF :: c :: r))
      with (if c =? LF then split_LFs (c :: r) else [] :: split_LFs (c :: r)).
    destruct (c =? LF) eqn:Hc; [|split; reflexivity].
    apply N.eqb_eq in Hc. subst c. destruct IH as [Hh Ht]. split; [assumption|].
    pose proof (split_LFs_not_nil (LF :: r)).
    destruct (split_LFs (LF :: r)) as [|h t]; [contradiction|].
    simpl in Hh. subst h. reflexivity.
Qed.

Lemma parseQuestions_one s :
  no_LF s = true -> parseQuestions s = kept [s].
Proof.
  intros H. unfold parseQuestions. fold (kept (split_LFs s)).
  rewrite <- (app_nil_r s) at 1. rewrite split_LFs_prefix by assumption.
  simpl. rewrite app_nil_r. reflexivity.
Qed.

Lemma parseQuestions_line s r :
  no_LF s = true -> parseQuestions (s ++ LF :: r) = kept [s] ++ parseQuestions r.
Proof.
  intros H. unfold parseQuestions. fold (kept (split_LFs (s ++ LF :: r))).
  fold (kept (split_LFs r)).
  rewrite split_LFs_prefix by assumption.
  destruct (split_LFs_leading_LF r) as [Hh Ht]. rewrite Hh, app_nil_r, <- Ht.
  unfold kept. simpl. destruct (truthy_str (trim (strip_ordinal s))); reflexivity.
Qed.

Lemma kept_segment seg :
  (forall l, seg = Some l -> well_formed l = true) ->
  no_LF (segment_text seg) = true /\
  kept [segment_text seg] = map question_of (lines_of [seg]).
Proof.
  intros H. destruct seg as [l|]; [|split; reflexivity].
  specialize (H l eq_refl). split; [apply well_formed_no_LF; assumption|].
  destruct (well_formed_question l H) as [Hq Hne].
  unfold kept. simpl. rewrite Hq.
  apply truthy_str_true in Hne. rewrite Hne. reflexivity.
Qed.

Lemma lines_of_cons seg segs : lines_of (seg :: segs) = lines_of [seg] ++ lines_of segs.
Proof. destruct seg; reflexivity. Qed.

(** ** C3 *)

(** C3. For every well-formed numbered list (lines made of an ordinal of
    digits, a period, white space and a question text that is not blank,
    possibly with blank lines around them), [parseQuestions] returns exactly
    one entry per line, in order: the line without its ordinal marker,
    trimmed. Empty segments leave no entry. *)
Theorem parseQuestions_numbered_list (segs : list (option numbered_line)) :
  forallb well_formed (lines_of segs) = true ->
  parseQuestions (numbered_text segs) = map question_of (lines_of segs)
  /\ List.length (parseQuestions (numbered_text segs)) = List.length (lines_of segs)
  /\ Forall (fun q => q <> []) (parseQuestions (numbered_text segs)).
Proof.
  intros Hwf.
  assert (Heq : parseQuestions (numbered_text segs) = map question_of (lines_of segs)).
  { unfold numbered_text. induction segs as [|seg segs IH]; [reflexivity|].
    rewrite lines_of_cons, forallb_app in Hwf.
    apply andb_true_iff in Hwf as [Hseg Hrest].
    assert (Hs : forall l, seg = Some l -> well_formed l = true).
    { intros l ->. simpl in Hseg. apply andb_true_iff in Hseg. tauto. }
    destruct (kept_segment seg Hs) as [HnoLF Hkept].
    rewrite lines_of_cons, map_app, <- Hkept.
    destruct segs as [|seg' segs].
    - simpl. rewrite app_nil_r. apply parseQuestions_one. assumption.
    - change (join [LF] (map segment_text (seg :: seg' :: segs)))
        with (segment_text seg ++ LF :: join [LF] (map segment_text (seg' :: segs))).
      rewrite parseQuestions_line by assumption. f_equal. apply IH. assumption. }
  split; [assumption|]. split.
  - rewrite Heq. apply length_map.
  - unfold parseQuestions. apply Forall_forall. intros q Hq.
    apply filter_In in Hq as [_ Hq]. apply truthy_str_true. assumption.
Qed.

Lemma parseQuestions_numbered_list_witness :
  let l1 := mkLine (lit "1") [SPACE] (lit "Tell me about yourself") in
  let l2 := mkLine (lit "12") [SPACE; 9] (lit "Why this role? (behavioral) ") in
  let segs := [Some l1; None; Some l2; None] in
  forallb well_formed (lines_of segs) = true
  /\ numbered_text segs
     = lit "1. Tell me about yourself" ++ [LF; LF]
       ++ lit "12." ++ [SPACE; 9] ++ lit "Why this role? (behavioral) " ++ [LF]
  /\ parseQuestions (numbered_text segs)
     = [lit "Tell me about yourself"; lit "Why this role? (behavioral)"].
Proof.
  intros l1 l2 segs.
  assert (H : forallb well_formed (lines_of segs) = true) by reflexivity.
  split; [exact H|]. split; [reflexivity|].
  exact (proj1 (parseQuestions_numbered_list segs H)).
Defined.

(** ** Reading the score *)

Lemma takeDigits_dropDigits s : takeDigits s ++ dropDigits s = s.
Proof.
  induction s as [|c s IH]; simpl; [reflexivity|].
  destruct (is_digit c); simpl; [rewrite IH|]; reflexivity.
Qed.

Lemma takeDigits_all_digits s : all_digits (takeDigits s) = true.
Proof.
  induction s as [|c s IH]; simpl; [reflexivity|].
  destruct (is_digit c) eqn:Hc; simpl; [rewrite Hc; assumption|reflexivity].
Qed.

Lemma dropDigits_not_digit_first s : not_digit_first (dropDigits s) = true.
Proof.
  induction s as [|c s IH]; simpl; [reflexivity|].
  destruct (is_digit c) eqn:Hc; [assumption|]. simpl. rewrite Hc. reflexivity.
Qed.

Lemma takeDigits_of_digits s : all_digits s = true -> takeDigits s = s.
Proof.
  induction s as [|c s IH]; simpl; [reflexivity|].
  intros H. apply andb_true_iff in H as [Hc Hs]. rewrite Hc, IH by assumption.
  reflexivity.
Qed.

Lemma len_cons {A} (x : A) l : len (x :: l) = (len l + 1)%Z.
Proof. unfold len. simpl List.length. lia. Qed.

Lemma len_nonneg {A} (l : list A) : (0 <= len l)%Z.
Proof. unfold len. lia. Qed.

(** The left-to-right accumulation of [parseInt] computes the positional
    value of the numeral. *)
Lemma fold_digits_value ds acc :
  fold_left (fun a c => (10 * a + digit_value c)%Z) ds acc
  = (acc * 10 ^ len ds + decimal_value ds)%Z.
Proof.
  revert acc. induction ds as [|d ds IH]; intros acc; cbn [fold_left decimal_value].
  - change (len (@nil code_unit)) with 0%Z. lia.
  - rewrite IH, len_cons, Z.pow_add_r by (pose proof (len_nonneg ds); lia).
    ring.
Qed.

Lemma parseInt10_digits ds :
  all_digits ds = true -> parseInt10 ds = round_to_double (decimal_value ds).
Proof.
  intros H. unfold parseInt10. rewrite takeDigits_of_digits by assumption.
  rewrite fold_digits_value. f_equal.
Qed.

(** Up to 2^53 the Number is the integer itself. *)
Lemma round_to_double_exact n : (n <= 2 ^ 53)%Z -> round_to_double n = Finite n.
Proof.
  intros H. destruct (Z.eq_dec n (2 ^ 53)) as [->|Hne]; [vm_compute; reflexivity|].
  unfold round_to_double.
  destruct (n <? 2 ^ 53)%Z eqn:E; [reflexivity|]. apply Z.ltb_ge in E. lia.
Qed.

Lemma round_to_double_nonneg n : (0 <= n)%Z -> number_le 0 (round_to_double n).
Proof.
  intros H. unfold round_to_double.
  destruct (n <? 2 ^ 53)%Z; [exact H|].
  set (e := (Z.log2 n - 52)%Z).
  assert (Hp : (0 <= 2 ^ e)%Z) by (apply Z.pow_nonneg; lia).
  assert (Hq : (0 <= n / 2 ^ e)%Z) by (apply Z_div_nonneg_nonneg; assumption).
  match goal with |- context [if ?c then (n / 2 ^ e + 1)%Z else _] => destruct c end;
    match goal with |- context [(?v <? 2 ^ 1024)%Z] => destruct (v <? 2 ^ 1024)%Z end;
    cbn; try exact I; nia.
Qed.

Lemma first_run_value_skip c s v :
  is_digit c = false -> first_run_value s v -> first_run_value (c :: s) v.
Proof.
  intros Hc H. destruct H as [line Hn | before run after Hb Hne Hr Ha].
  - apply frv_none. simpl. rewrite Hc. assumption.
  - change (c :: before ++ run ++ after) with ((c :: before) ++ run ++ after).
    apply frv_run; try assumption. simpl. rewrite Hc. assumption.
Qed.

Lemma score_of_first_run line :
  exists z, first_run_value line z /\ score_of line = round_to_double z.
Proof.
  induction line as [|c s (z & IH & Hz)].
  - exists 0%Z. split; [apply frv_none|]; reflexivity.
  - unfold score_of. cbn [match_digits]. destruct (is_digit c) eqn:Hc.
    + exists (decimal_value (takeDigits (c :: s))).
      split; [|apply parseInt10_digits, takeDigits_all_digits].
      rewrite <- (takeDigits_dropDigits (c :: s)) at 1.
      apply (frv_run [] (takeDigits (c :: s)) (dropDigits (c :: s))).
      * reflexivity.
      * simpl. rewrite Hc. discriminate.
      * apply takeDigits_all_digits.
      * apply dropDigits_not_digit_first.
    + exists z. split; [apply first_run_value_skip; assumption|exact Hz].
Qed.

(** The relation determines the value: a line has one first run of digits. *)
Lemma match_digits_run before run after :
  no_digit before = true -> run <> [] -> all_digits run = true ->
  not_digit_first after = true ->
  match_digits (before ++ run ++ after) = Some run.
Proof.
  intros Hb Hne Hr Ha. induction before as [|c before IH].
  - destruct run as [|d run]; [contradiction|]. simpl in *.
    apply andb_true_iff in Hr as [Hd Hr]. rewrite Hd. f_equal. f_equal.
    destruct after as [|a after].
    + rewrite app_nil_r. apply takeDigits_of_digits. assumption.
    + apply takeDigits_run; [assumption|]. simpl in Ha.
      apply negb_true_iff. assumption.
  - simpl in *. apply andb_true_iff in Hb as [Hc Hb].
    apply negb_true_iff in Hc. rewrite Hc. auto.
Qed.

Lemma match_digits_none line : no_digit line = true -> match_digits line = None.
Proof.
  induction line as [|c s IH]; simpl; [reflexivity|].
  intros H. apply andb_true_iff in H as [Hc Hs]. apply negb_true_iff in Hc.
  rewrite Hc. auto.
Qed.

Lemma first_run_value_score_of line v :
  first_run_value line v -> score_of line = round_to_double v.
Proof.
  intros H. destruct H as [line Hn | before run after Hb Hne Hr Ha]; unfold score_of.
  - rewrite match_digits_none by assumption. reflexivity.
  - rewrite match_digits_run by assumption.
    apply parseInt10_digits. assumption.
Qed.

(** ** The lines of a graded answer *)

(** The first segment that is not blank, and what follows it. *)
Lemma first_nonblank (segs : list jsstring) :
  (exists l, In l segs /\ trim l <> []) ->
  exists before l after,
    segs = before ++ l :: after /\
    Forall (fun s => trim s = []) before /\
    trim l <> [] /\
    filter truthy_str (map trim segs)
    = trim l :: filter truthy_str (map trim after).
Proof.
  induction segs as [|x segs IH]; intros (l & Hin & Hl); [destruct Hin|].
  destruct (trim x) as [|c t] eqn:Hx.
  - destruct Hin as [->|Hin]; [congruence|].
    destruct IH as (before & l' & after & -> & Hb & Hl' & Hf); [eauto|].
    exists (x :: before), l', after. repeat split; try assumption.
    + constructor; assumption.
    + simpl. rewrite Hx. simpl. assumption.
  - exists [], x, segs. repeat split.
    + constructor.
    + congruence.
    + simpl. rewrite Hx. reflexivity.
Qed.

Lemma split_LF_blank text :
  all_spaces text = true -> Forall (fun s => all_spaces s = true) (split_LF text).
Proof.
  induction text as [|c s IH]; simpl; intros H.
  - repeat constructor.
  - apply andb_true_iff in H as [Hc Hs]. specialize (IH Hs).
    destruct (c =? LF).
    + constructor; [reflexivity|assumption].
    + destruct (split_LF s) as [|seg segs]; [repeat constructor; simpl; rewrite Hc; reflexivity|].
      inversion IH; subst. constructor; [|assumption].
      simpl. rewrite Hc. assumption.
Qed.

Lemma grade_lines_blank text : all_spaces text = true -> grade_lines text = [].
Proof.
  intros H. apply split_LF_blank in H. unfold grade_lines.
  induction H as [|x l Hx _ IH]; [reflexivity|].
  simpl. rewrite (trim_blank x Hx). assumption.
Qed.

(** On a text that is empty or made of white space only, the grade parser
    throws: [lines] is empty and [lines[0].match] reads a property of
    [undefined]. *)
Lemma parseGrade_blank_throws text :
  all_spaces text = true ->
  parseGrade text = Threw (TypeError_undefined (lit "match")).
Proof.
  intros H. unfold parseGrade. rewrite grade_lines_blank by assumption.
  reflexivity.
Qed.

(** ** C4 *)

(** C4, as the code stands: when the text has a line that is not blank,
    [parseGrade] returns a result whose score is the Number [parseInt] gives
    for the first run of digits of the first non-blank line, trimmed: the
    integer the run writes when that integer is at most 2^53, and otherwise
    that integer rounded to a double ([Infinity] for the longest runs); 0
    when the line has no digit. The feedback is the remaining non-blank
    lines, trimmed and joined in order with one space (the empty string when
    there is none). *)
Theorem parseGrade_score_and_feedback (text : jsstring) :
  (exists l, In l (split_LF text) /\ trim l <> []) ->
  exists before l after g z,
    split_LF text = before ++ l :: after /\
    Forall (fun s => trim s = []) before /\
    trim l <> [] /\
    parseGrade text = Returned g /\
    first_run_value (trim l) z /\
    score g = round_to_double z /\
    ((z <= 2 ^ 53)%Z -> score g = Finite z) /\
    feedback g = join [SPACE] (filter truthy_str (map trim after)) /\
    (filter truthy_str (map trim after) = [] -> feedback g = []).
Proof.
  intros H. destruct (first_nonblank _ H) as (before & l & after & Hs & Hb & Hl & Hf).
  destruct (score_of_first_run (trim l)) as (z & Hz & Hscore).
  exists before, l, after.
  exists (mkGrade (score_of (trim l))
                  (join [SPACE] (filter truthy_str (map trim after)))).
  exists z. repeat split; try assumption.
  - unfold parseGrade, grade_lines. rewrite Hf. reflexivity.
  - cbn [score]. intros Hle. rewrite Hscore. apply round_to_double_exact. assumption.
  - simpl. intros ->. reflexivity.
Qed.

Lemma parseGrade_score_and_feedback_witness :
  let text := lit " " ++ [LF] ++ lit "Score: 8/10" ++ [LF; LF]
              ++ lit " Solid answer. " ++ [LF] ++ lit "- be concise" in
  (exists l, In l (split_LF text) /\ trim l <> [])
  /\ parseGrade text = Returned (mkGrade 8 (lit "Solid answer. - be concise"))
  /\ exists before l after g z,
       split_LF text = before ++ l :: after /\
       Forall (fun s => trim s = []) before /\
       trim l <> [] /\
       parseGrade text = Returned g /\
       first_run_value (trim l) z /\
       score g = round_to_double z /\
       ((z <= 2 ^ 53)%Z -> score g = Finite z) /\
       feedback g = join [SPACE] (filter truthy_str (map trim after)) /\
       (filter truthy_str (map trim after) = [] -> feedback g = []).
Proof.
  intros text.
  assert (H : exists l, In l (split_LF text) /\ trim l <> []).
  { exists (lit "Score: 8/10"). split; [simpl; right; left; reflexivity|discriminate]. }
  split; [exact H|]. split; [reflexivity|].
  exact (parseGrade_score_and_feedback text H).
Defined.

(** C4 as stated fails: on the one line 9007199254740993 (2^53 + 1) the
    first run of digits writes that integer, and the score returned is
    9007199254740992; on a line of 400 nines the score is [Infinity]. *)
Lemma parseGrade_score_is_rounded :
  let text := lit "9007199254740993" in
  (exists l, In l (split_LF text) /\ trim l <> [])
  /\ first_run_value text 9007199254740993
  /\ parseGrade text = Returned (mkGrade 9007199254740992 [])
  /\ parseGrade text <> Returned (mkGrade 9007199254740993 [])
  /\ parseGrade (repeat 57%N 400) = Returned (mkGrade Infinity []).
Proof.
  intros text. split; [|split; [|split; [|split]]].
  - exists text. split; [left; reflexivity|discriminate].
  - exact (frv_run [] text [] eq_refl ltac:(discriminate) eq_refl eq_refl).
  - vm_compute. reflexivity.
  - vm_compute. discriminate.
  - vm_compute. reflexivity.
Qed.

(** ** Running the handler *)

Lemma jsstring_eqb_eq a b : jsstring_eqb a b = true <-> a = b.
Proof.
  revert b. induction a as [|x a IH]; intros [|y b]; simpl; split;
    try congruence; try discriminate.
  - intros H. apply andb_true_iff in H as [Hx Ha].
    apply N.eqb_eq in Hx. apply IH in Ha. congruence.
  - intros H. injection H as -> ->. rewrite N.eqb_refl. simpl. apply IH. reflexivity.
Qed.

Lemma strict_eq_str_true v s : strict_eq_str v s = true <-> v = JStr (lit s).
Proof.
  destruct v; simpl; split; try congruence; try discriminate.
  - intros H. apply jsstring_eqb_eq in H. congruence.
  - intros H. injection H as ->. apply jsstring_eqb_eq. reflexivity.
Qed.

Lemma strict_eq_str_false v s : strict_eq_str v s = false <-> v <> JStr (lit s).
Proof.
  rewrite <- strict_eq_str_true. destruct (strict_eq_str v s); split; congruence.
Qed.

Lemma run_srv_bind {A B} up (m : srv A) (f : A -> srv B) :
  run_srv up (sbind m f)
  = match run_srv up m with
    | (Returned a, log) => let (r, log') := run_srv up (f a) in (r, log ++ log')
    | (Threw e, log) => (Threw e, log)
    end.
Proof.
  induction m as [a|e|c k IH]; simpl.
  - destruct (run_srv up (f a)). reflexivity.
  - reflexivity.
  - rewrite IH. destruct (run_srv up (k (up c))) as [[a|e] log]; [|reflexivity].
    destruct (run_srv up (f a)). reflexivity.
Qed.

Lemma run_srv_try {A} up (m : srv A) (h : exn -> srv A) :
  run_srv up (try_catch m h)
  = match run_srv up m with
    | (Returned a, log) => (Returned a, log)
    | (Threw e, log) => let (r, log') := run_srv up (h e) in (r, log ++ log')
    end.
Proof.
  induction m as [a|e|c k IH]; simpl.
  - reflexivity.
  - destruct (run_srv up (h e)). reflexivity.
  - rewrite IH. destruct (run_srv up (k (up c))) as [[a|e] log]; [reflexivity|].
    destruct (run_srv up (h e)). reflexivity.
Qed.

(** [openaiCompletion] makes at most one outbound call, and none without a
    key. *)
Lemma openaiCompletion_calls key up prompt :
  snd (run_srv up (openaiCompletion key prompt))
  = match key with
    | None | Some [] => []
    | Some k => [mkOutbound (lit "https://api.openai.com/v1/chat/completions")
                            k (lit "gpt-4o-mini") prompt 700]
    end.
Proof.
  destruct key as [[|c k]|]; try reflexivity.
  unfold openaiCompletion. cbn [run_srv].
  match goal with |- context [up ?c] => destruct (up c) end; reflexivity.
Qed.

Lemma template_text vs text p : template vs text = Returned p -> p = text.
Proof.
  induction vs as [|v vs IH]; simpl; [congruence|].
  destruct (ToString v); [assumption|discriminate].
Qed.

(** The page sends strings, which always convert. *)
Lemma or_default_str c d : exists s, or_default (JStr c) d = JStr s.
Proof. unfold or_default. destruct (truthy (JStr c)); eexists; reflexivity. Qed.

Lemma questionTemplate_strings a r c p q w :
  questionTemplate (mkBody a (JStr r) (JStr c) (JStr p) q w)
  = Returned (questionPrompt (mkBody a (JStr r) (JStr c) (JStr p) q w)).
Proof.
  unfold questionTemplate. cbn [b_role b_company b_program].
  destruct (or_default_str c "generic") as [c' ->].
  destruct (or_default_str p "general") as [p' ->]. reflexivity.
Qed.

Lemma gradingTemplate_strings a r c p q w :
  gradingTemplate (mkBody a (JStr r) (JStr c) (JStr p) (JStr q) (JStr w))
  = Returned (gradingPrompt (mkBody a (JStr r) (JStr c) (JStr p) (JStr q) (JStr w))).
Proof.
  unfold gradingTemplate. cbn [b_role b_company b_program b_question b_answer].
  destruct (or_default_str c "generic") as [c' ->].
  destruct (or_default_str p "general") as [p' ->]. reflexivity.
Qed.

(** The generate_questions stage (lines 145-152 and the catch clause). *)
Lemma handler_generate_stage key up b :
  action b = JStr (lit "generate_questions") ->
  run_srv up (handler key (POST b))
  = match questionTemplate b with
    | Threw e => (Returned (status_json 500 (ErrorBody (error_message e))), [])
    | Returned prompt =>
        match run_srv up (openaiCompletion key prompt) with
        | (Returned (Some text), log) =>
            (Returned (json (QuestionsBody (parseQuestions text))), log)
        | (Returned None, log) =>
            (Returned (status_json 500
               (ErrorBody (RuntimeText (TypeError_undefined (lit "split"))))), log)
        | (Threw e, log) =>
            (Returned (status_json 500 (ErrorBody (error_message e))), log)
        end
    end.
Proof.
  intros Ha. unfold handler.
  change (jsstring_eqb (method (POST b)) (lit "POST")) with true.
  cbn [negb body POST]. rewrite Ha.
  change (strict_eq_str (JStr (lit "generate_questions")) "generate_questions") with true.
  cbv iota. rewrite run_srv_try.
  destruct (questionTemplate b) as [prompt|e]; [|reflexivity].
  cbn [lift_result sbind]. rewrite run_srv_bind.
  destruct (run_srv up (openaiCompletion key prompt)) as [[[text|]|e] log];
    simpl; rewrite ?app_nil_r; reflexivity.
Qed.

(** The grade_answer stage (lines 154-163 and the catch clause). *)
Lemma handler_grade_stage key up b :
  action b = JStr (lit "grade_answer") ->
  run_srv up (handler key (POST b))
  = match gradingTemplate b with
    | Threw e => (Returned (status_json 500 (ErrorBody (error_message e))), [])
    | Returned prompt =>
        match run_srv up (openaiCompletion key prompt) with
        | (Returned (Some text), log) =>
            match parseGrade text with
            | Returned g =>
                (Returned (json (GradeBody (to_json (score g)) (feedback g))), log)
            | Threw e => (Returned (status_json 500 (ErrorBody (error_message e))), log)
            end
        | (Returned None, log) =>
            (Returned (status_json 500
               (ErrorBody (RuntimeText (TypeError_undefined (lit "split"))))), log)
        | (Threw e, log) =>
            (Returned (status_json 500 (ErrorBody (error_message e))), log)
        end
    end.
Proof.
  intros Ha. unfold handler.
  change (jsstring_eqb (method (POST b)) (lit "POST")) with true.
  cbn [negb body POST]. rewrite Ha.
  change (strict_eq_str (JStr (lit "grade_answer")) "generate_questions") with false.
  change (strict_eq_str (JStr (lit "grade_answer")) "grade_answer") with true.
  cbv iota. rewrite run_srv_try.
  destruct (gradingTemplate b) as [prompt|e]; [|reflexivity].
  cbn [lift_result sbind]. rewrite run_srv_bind.
  destruct (run_srv up (openaiCompletion key prompt)) as [[[text|]|e] log];
    [|simpl; rewrite ?app_nil_r; reflexivity..].
  cbn [as_string sbind]. rewrite run_srv_bind.
  destruct (parseGrade text) as [g|e]; simpl; rewrite ?app_nil_r; reflexivity.
Qed.

(** The two stages on a request whose prompt can be built. *)
Lemma handler_generate key up b :
  action b = JStr (lit "generate_questions") ->
  questionTemplate b = Returned (questionPrompt b) ->
  run_srv up (handler key (POST b))
  = match run_srv up (openaiCompletion key (questionPrompt b)) with
    | (Returned (Some text), log) =>
        (Returned (json (QuestionsBody (parseQuestions text))), log)
    | (Returned None, log) =>
        (Returned (status_json 500
           (ErrorBody (RuntimeText (TypeError_undefined (lit "split"))))), log)
    | (Threw e, log) =>
        (Returned (status_json 500 (ErrorBody (error_message e))), log)
    end.
Proof. intros Ha Ht. rewrite (handler_generate_stage key up b Ha), Ht. reflexivity. Qed.

Lemma handler_grade key up b :
  action b = JStr (lit "grade_answer") ->
  gradingTemplate b = Returned (gradingPrompt b) ->
  run_srv up (handler key (POST b))
  = match run_srv up (openaiCompletion key (gradingPrompt b)) with
    | (Returned (Some text), log) =>
        match parseGrade text with
        | Returned g =>
            (Returned (json (GradeBody (to_json (score g)) (feedback g))), log)
        | Threw e => (Returned (status_json 500 (ErrorBody (error_message e))), log)
        end
    | (Returned None, log) =>
        (Returned (status_json 500
           (ErrorBody (RuntimeText (TypeError_undefined (lit "split"))))), log)
    | (Threw e, log) =>
        (Returned (status_json 500 (ErrorBody (error_message e))), log)
    end.
Proof. intros Ha Ht. rewrite (handler_grade_stage key up b Ha), Ht. reflexivity. Qed.

(** The handler answers every request: what it throws, it catches. *)
Lemma handler_returns key up req :
  exists r, fst (run_srv up (handler key req)) = Returned r.
Proof.
  unfold handler. destruct (negb _); [eexists; reflexivity|].
  rewrite run_srv_try.
  match goal with |- context [run_srv up ?m] => destruct (run_srv up m) as [[a|e] log] end;
    eexists; reflexivity.
Qed.

(** ** C10 *)

(** C10. A POST request whose action is neither "generate_questions" nor
    "grade_answer" is answered with status 400 and the body
    [{error: "invalid action"}], and the handler makes no outbound call: it
    returns at once, whatever the key and the model service. *)
Theorem handler_invalid_action key (req : request) :
  method req = lit "POST" ->
  action (match body req with Some b => b | None => empty_body end)
    <> JStr (lit "generate_questions") ->
  action (match body req with Some b => b | None => empty_body end)
    <> JStr (lit "grade_answer") ->
  handler key req
    = SRet (mkResponse 400 (Some (ErrorBody (Text (lit "invalid action")))))
  /\ forall up,
       run_srv up (handler key req)
       = (Returned (mkResponse 400 (Some (ErrorBody (Text (lit "invalid action"))))), []).
Proof.
  intros Hm Hg Hq.
  assert (H : handler key req
              = SRet (mkResponse 400 (Some (ErrorBody (Text (lit "invalid action")))))).
  { unfold handler. rewrite Hm.
    change (jsstring_eqb (lit "POST") (lit "POST")) with true. cbn [negb].
    apply strict_eq_str_false in Hg, Hq. rewrite Hg, Hq. reflexivity. }
  split; [assumption|]. intros up. rewrite H. reflexivity.
Qed.

Lemma handler_invalid_action_witness :
  let req := mkRequest (lit "POST")
               (Some (mkBody (JStr (lit "delete_everything")) (JStr (lit "Nurse"))
                             JUndefined JNull JUndefined JUndefined)) in
  method req = lit "POST"
  /\ handler (Some (lit "sk-test")) req
     = SRet (mkResponse 400 (Some (ErrorBody (Text (lit "invalid action"))))).
Proof.
  intros req. split; [reflexivity|].
  apply (handler_invalid_action (Some (lit "sk-test")) req);
    [reflexivity | discriminate | discriminate].
Defined.

(** A request without a body (or without an action) is handled the same
    way. *)
Lemma handler_no_body key :
  handler key (mkRequest (lit "POST") None)
  = SRet (mkResponse 400 (Some (ErrorBody (Text (lit "invalid action"))))).
Proof. reflexivity. Qed.

(** ** Running the page *)

Lemma serve_handler key up req r log :
  run_srv up (handler key req) = (Returned r, log) ->
  serve key up req = (Http r, log).
Proof. intros H. unfold serve. rewrite H. reflexivity. Qed.

Lemma run_fetchQuestions api st r log data :
  api (POST (generate_body st)) = (Http r, log) ->
  payload r = Some data ->
  run_client api (fetchQuestions st)
  = (Returned tt,
     mkState (role st) (company st) (program st) (data_questions data) 0 [] [] false,
     log).
Proof.
  intros Hapi Hp. unfold fetchQuestions.
  cbn [run_client]. rewrite Hapi. cbn [res_json]. rewrite Hp.
  cbn [run_client]. rewrite app_nil_r. reflexivity.
Qed.

Lemma run_gradeAnswer api st q r log data :
  selected st = Some q ->
  api (POST (grade_body st q)) = (Http r, log) ->
  payload r = Some data ->
  run_client api (gradeAnswer st)
  = (Returned tt,
     mkState (role st) (company st) (program st) (questions st)
             (Z.min (currentIndex st + 1) (len (questions st) - 1)) []
             (mkEntry q (answer st) (data_score data) (data_feedback data) :: history st)
             false,
     log).
Proof.
  intros Hsel Hapi Hp. unfold gradeAnswer. rewrite Hsel.
  cbn [run_client]. rewrite Hapi. cbn [res_json]. rewrite Hp.
  cbn [run_client]. rewrite app_nil_r. reflexivity.
Qed.

(** When the model call fails, the handler answers 500 with the message of
    the error. *)
Lemma serve_generate_failure key up st e :
  fst (run_srv up (openaiCompletion key (questionPrompt (generate_body st)))) = Threw e ->
  serve key up (POST (generate_body st))
  = (Http (mkResponse 500 (Some (ErrorBody (error_message e)))),
     snd (run_srv up (openaiCompletion key (questionPrompt (generate_body st))))).
Proof.
  intros H. apply serve_handler.
  rewrite handler_generate by (reflexivity || apply questionTemplate_strings).
  destruct (run_srv up _) as [r log]. simpl in H. subst r. reflexivity.
Qed.

Lemma serve_grade_failure key up st q e :
  fst (run_srv up (openaiCompletion key (gradingPrompt (grade_body st q)))) = Threw e ->
  serve key up (POST (grade_body st q))
  = (Http (mkResponse 500 (Some (ErrorBody (error_message e)))),
     snd (run_srv up (openaiCompletion key (gradingPrompt (grade_body st q))))).
Proof.
  intros H. apply serve_handler.
  rewrite handler_grade by (reflexivity || apply gradingTemplate_strings).
  destruct (run_srv up _) as [r log]. simpl in H. subst r. reflexivity.
Qed.

(** ** C1 *)

(** C1, as the code stands: when the model call of the grade_answer stage
    fails, the handler answers 500 with the error message, and [gradeAnswer]
    goes on as after a success: it puts an entry at the head of [history]
    (the question, the answer typed, no score and no feedback) and moves
    [currentIndex] one step forward, clamped to the last question. The page
    does not look at the status or at the [error] field. *)
Theorem gradeAnswer_after_upstream_error key up st q :
  selected st = Some q ->
  model_call_fails key up (gradingPrompt (grade_body st q)) ->
  exists e log st',
    serve key up (POST (grade_body st q))
      = (Http (mkResponse 500 (Some (ErrorBody (error_message e)))), log)
    /\ run_client (serve key up) (gradeAnswer st) = (Returned tt, st', log)
    /\ history st' = mkEntry q (answer st) None None :: history st
    /\ currentIndex st' = Z.min (currentIndex st + 1) (len (questions st) - 1)
    /\ questions st' = questions st.
Proof.
  intros Hsel [e He].
  pose proof (serve_grade_failure key up st q e He) as Hs.
  eexists e, _, _. split; [exact Hs|].
  split; [exact (run_gradeAnswer _ st q _ _ _ Hsel Hs eq_refl)|].
  repeat split.
Qed.

Lemma gradeAnswer_after_upstream_error_witness :
  let st := mkState (lit "Nurse") [] [] [lit "Q1 (behavioral)"; lit "Q2 (technical)"]
                    0 (lit "my answer") [] false in
  let up := fun _ : outbound => UpNoChoices in
  let key := Some (lit "sk-test") in
  selected st = Some (lit "Q1 (behavioral)")
  /\ model_call_fails key up (gradingPrompt (grade_body st (lit "Q1 (behavioral)")))
  /\ exists e log st',
       serve key up (POST (grade_body st (lit "Q1 (behavioral)")))
         = (Http (mkResponse 500 (Some (ErrorBody (error_message e)))), log)
       /\ run_client (serve key up) (gradeAnswer st) = (Returned tt, st', log)
       /\ history st' = mkEntry (lit "Q1 (behavioral)") (answer st) None None :: history st
       /\ currentIndex st' = Z.min (currentIndex st + 1) (len (questions st) - 1)
       /\ questions st' = questions st.
Proof.
  intros st up key.
  assert (Hsel : selected st = Some (lit "Q1 (behavioral)")) by reflexivity.
  assert (Hf : model_call_fails key up
                 (gradingPrompt (grade_body st (lit "Q1 (behavioral)")))).
  { exists (Error (lit "OpenAI error")). reflexivity. }
  split; [exact Hsel|]. split; [exact Hf|].
  exact (gradeAnswer_after_upstream_error key up st _ Hsel Hf).
Defined.

(** C1 as stated fails: with a question selected and the model service
    answering without choices, [gradeAnswer] adds a history entry and
    advances [currentIndex] from 0 to 1. *)
Lemma gradeAnswer_upstream_error_changes_state :
  let st := mkState (lit "Nurse") [] [] [lit "Q1 (behavioral)"; lit "Q2 (technical)"]
                    0 (lit "my answer") [] false in
  let up := fun _ : outbound => UpNoChoices in
  let key := Some (lit "sk-test") in
  let st' := snd (fst (run_client (serve key up) (gradeAnswer st))) in
  model_call_fails key up (gradingPrompt (grade_body st (lit "Q1 (behavioral)")))
  /\ currentIndex st = 0%Z /\ currentIndex st' = 1%Z
  /\ history st = []
  /\ history st' = [mkEntry (lit "Q1 (behavioral)") (lit "my answer") None None]
  /\ ~ (currentIndex st' = currentIndex st /\ history st' = history st).
Proof.
  intros st up key st'.
  split; [exists (Error (lit "OpenAI error")); reflexivity|].
  assert (Hi : currentIndex st' = 1%Z) by (vm_compute; reflexivity).
  assert (Hh : history st'
               = [mkEntry (lit "Q1 (behavioral)") (lit "my answer") None None])
    by (vm_compute; reflexivity).
  repeat split; try assumption.
  intros [H _]. rewrite Hi in H. discriminate.
Qed.

(** ** C6 *)

(** C6, as the code stands: when the model call of the generate_questions
    stage fails, the handler surfaces the failure as a 500 response with the
    error message, and [fetchQuestions] then empties [questions] and
    [history] and sets [currentIndex] to 0; role, company and program are
    unchanged. *)
Theorem fetchQuestions_after_upstream_error key up st :
  model_call_fails key up (questionPrompt (generate_body st)) ->
  exists e log st',
    serve key up (POST (generate_body st))
      = (Http (mkResponse 500 (Some (ErrorBody (error_message e)))), log)
    /\ run_client (serve key up) (fetchQuestions st) = (Returned tt, st', log)
    /\ questions st' = [] /\ currentIndex st' = 0%Z /\ history st' = []
    /\ role st' = role st /\ company st' = company st /\ program st' = program st.
Proof.
  intros [e He].
  pose proof (serve_generate_failure key up st e He) as Hs.
  eexists e, _, _. split; [exact Hs|].
  split; [exact (run_fetchQuestions _ st _ _ _ Hs eq_refl)|].
  repeat split.
Qed.

Lemma fetchQuestions_after_upstream_error_witness :
  let st := mkState (lit "Nurse") [] [] [lit "Q1 (behavioral)"; lit "Q2 (technical)"]
                    1 (lit "my answer")
                    [mkEntry (lit "Q1 (behavioral)") (lit "first") (Some 7%Z) (Some (lit "Fine."))]
                    false in
  let up := fun _ : outbound => UpRejected in
  let key : option jsstring := None in
  model_call_fails key up (questionPrompt (generate_body st))
  /\ exists e log st',
       serve key up (POST (generate_body st))
         = (Http (mkResponse 500 (Some (ErrorBody (error_message e)))), log)
       /\ run_client (serve key up) (fetchQuestions st) = (Returned tt, st', log)
       /\ questions st' = [] /\ currentIndex st' = 0%Z /\ history st' = []
       /\ role st' = role st /\ company st' = company st /\ program st' = program st.
Proof.
  intros st up key.
  assert (Hf : model_call_fails key up (questionPrompt (generate_body st))).
  { exists (Error (lit "OPENAI_API_KEY not set")). reflexivity. }
  split; [exact Hf|].
  exact (fetchQuestions_after_upstream_error key up st Hf).
Defined.

(** C6 as stated fails: with two questions, the second one selected and one
    graded answer, a failing model call during [fetchQuestions] leaves no
    question, no history and [currentIndex] 0. *)
Lemma fetchQuestions_upstream_error_changes_state :
  let st := mkState (lit "Nurse") [] [] [lit "Q1 (behavioral)"; lit "Q2 (technical)"]
                    1 (lit "my answer")
                    [mkEntry (lit "Q1 (behavioral)") (lit "first") (Some 7%Z) (Some (lit "Fine."))]
                    false in
  let up := fun _ : outbound => UpRejected in
  let key := Some (lit "sk-test") in
  let st' := snd (fst (run_client (serve key up) (fetchQuestions st))) in
  model_call_fails key up (questionPrompt (generate_body st))
  /\ questions st' = [] /\ currentIndex st' = 0%Z /\ history st' = []
  /\ ~ (questions st' = questions st /\ currentIndex st' = currentIndex st
        /\ history st' = history st).
Proof.
  intros st up key st'.
  split; [exists FetchRejected; reflexivity|].
  assert (Hq : questions st' = []) by (vm_compute; reflexivity).
  repeat split; try (vm_compute; reflexivity).
  intros [H _]. rewrite Hq in H. discriminate.
Qed.

(** ** C5 *)

Lemma serve_generate_with_key up st c k :
  exists r data,
    serve (Some (c :: k)) up (POST (generate_body st))
    = (Http r, [mkOutbound (lit "https://api.openai.com/v1/chat/completions")
                           (c :: k) (lit "gpt-4o-mini")
                           (questionPrompt (generate_body st)) 700])
    /\ payload r = Some data.
Proof.
  unfold serve.
  rewrite handler_generate by (reflexivity || apply questionTemplate_strings).
  unfold openaiCompletion. cbn [run_srv].
  match goal with |- context [up ?o] => destruct (up o) as [| | |[text|]] end;
    cbn [run_srv]; eexists _, _; split; reflexivity.
Qed.

(** C5, as the code stands: an empty role is not validated anywhere. The
    page sends the request as it is, the handler (given an API key) builds
    the prompt around the empty role and makes the outbound call as its first
    step, and [fetchQuestions] settles without any error. *)
Theorem fetchQuestions_empty_role_calls_model key up st :
  role st = [] ->
  (exists k, key = Some k /\ k <> []) ->
  exists k kont st',
    key = Some k
    /\ handler key (POST (generate_body st))
       = SFetch (mkOutbound (lit "https://api.openai.com/v1/chat/completions")
                            k (lit "gpt-4o-mini")
                            (questionPrompt (generate_body st)) 700) kont
    /\ run_client (serve key up) (fetchQuestions st)
       = (Returned tt, st',
          [mkOutbound (lit "https://api.openai.com/v1/chat/completions")
                      k (lit "gpt-4o-mini")
                      (questionPrompt (generate_body st)) 700]).
Proof.
  intros _ (k & -> & Hk). destruct k as [|c k]; [contradiction|].
  destruct (serve_generate_with_key up st c k) as (r & data & Hs & Hp).
  eexists (c :: k), _, _. split; [reflexivity|]. split.
  - unfold handler.
    change (jsstring_eqb (method (POST (generate_body st))) (lit "POST")) with true.
    cbn [negb body POST].
    change (strict_eq_str (action (generate_body st)) "generate_questions") with true.
    cbv iota.
    replace (questionTemplate (generate_body st))
      with (Returned (A:=jsstring) (questionPrompt (generate_body st)))
      by (symmetry; apply questionTemplate_strings).
    reflexivity.
  - exact (run_fetchQuestions _ st _ _ _ Hs Hp).
Qed.

Lemma fetchQuestions_empty_role_calls_model_witness :
  let st := setRole [] initial_state in
  let up := fun _ : outbound => UpContent (Some (lit "1. Why us? (behavioral)")) in
  let key := Some (lit "sk-test") in
  role st = []
  /\ (exists k, key = Some k /\ k <> [])
  /\ exists k kont st',
       key = Some k
       /\ handler key (POST (generate_body st))
          = SFetch (mkOutbound (lit "https://api.openai.com/v1/chat/completions")
                               k (lit "gpt-4o-mini")
                               (questionPrompt (generate_body st)) 700) kont
       /\ run_client (serve key up) (fetchQuestions st)
          = (Returned tt, st',
             [mkOutbound (lit "https://api.openai.com/v1/chat/completions")
                         k (lit "gpt-4o-mini")
                         (questionPrompt (generate_body st)) 700]).
Proof.
  intros st up key.
  assert (Hr : role st = []) by reflexivity.
  assert (Hk : exists k, key = Some k /\ k <> []).
  { exists (lit "sk-test"). split; [reflexivity|discriminate]. }
  split; [exact Hr|]. split; [exact Hk|].
  exact (fetchQuestions_empty_role_calls_model key up st Hr Hk).
Defined.

(** C5 as stated fails: with an empty role, [fetchQuestions] does not fail,
    the model service is called, and its questions are installed. *)
Lemma fetchQuestions_empty_role_not_rejected :
  let st := setRole [] initial_state in
  let up := fun _ : outbound => UpContent (Some (lit "1. Why us? (behavioral)")) in
  let key := Some (lit "sk-test") in
  let run := run_client (serve key up) (fetchQuestions st) in
  role st = []
  /\ fst (fst run) = Returned tt
  /\ questions (snd (fst run)) = [lit "Why us? (behavioral)"]
  /\ List.length (snd run) = 1%nat
  /\ ~ ((exists e, fst (fst run) = Threw e) /\ snd run = []).
Proof.
  intros st up key run.
  assert (Ho : fst (fst run) = Returned tt) by (vm_compute; reflexivity).
  repeat split; try (vm_compute; reflexivity).
  intros [[e He] _]. rewrite Ho in He. discriminate.
Qed.

(** ** C7 *)

Lemma selected_no_questions st : questions st = [] -> selected st = None.
Proof.
  intros H. unfold selected, index. rewrite H.
  destruct (currentIndex st <? 0)%Z; [reflexivity|].
  destruct (Z.to_nat (currentIndex st)); reflexivity.
Qed.

(** C7, as the code stands: when [questions] is empty, or [currentIndex]
    selects no question, [gradeAnswer] returns at once: it raises no error,
    sends no request, and leaves the whole state, [history] and
    [currentIndex] included, as it was. *)
Theorem gradeAnswer_without_question st :
  questions st = [] \/ selected st = None ->
  gradeAnswer st = Settled (Returned tt) st
  /\ forall api, run_client api (gradeAnswer st) = (Returned tt, st, []).
Proof.
  intros H.
  assert (Hs : selected st = None).
  { destruct H as [H|H]; [apply selected_no_questions|]; assumption. }
  assert (Hg : gradeAnswer st = Settled (Returned tt) st).
  { unfold gradeAnswer. rewrite Hs. reflexivity. }
  split; [assumption|]. intros api. rewrite Hg. reflexivity.
Qed.

Lemma gradeAnswer_without_question_witness :
  (questions initial_state = [] \/ selected initial_state = None)
  /\ gradeAnswer initial_state = Settled (Returned tt) initial_state
  /\ forall api, run_client api (gradeAnswer initial_state)
                  = (Returned tt, initial_state, []).
Proof.
  assert (H : questions initial_state = [] \/ selected initial_state = None)
    by (left; reflexivity).
  split; [exact H|].
  exact (gradeAnswer_without_question initial_state H).
Defined.

(** C7 as stated fails: in the initial state, where [questions] is empty,
    [gradeAnswer] is fulfilled; no error of any kind is raised. *)
Lemma gradeAnswer_without_question_no_error :
  let run := run_client (serve None (fun _ => UpRejected)) (gradeAnswer initial_state) in
  questions initial_state = []
  /\ fst (fst run) = Returned tt
  /\ ~ (exists e, fst (fst run) = Threw e).
Proof.
  intros run. split; [reflexivity|]. split; [reflexivity|].
  intros [e He]. discriminate He.
Qed.

(** ** Sequences of events *)

Lemma handle_all_reachable evs : forall st st',
  reachable st -> handle_all st evs = Some st' -> reachable st'.
Proof.
  induction evs as [|ev evs IH]; intros st st' Hr H; simpl in H.
  - injection H as <-. assumption.
  - destruct (handle st ev) as [st1|] eqn:Hh; [|discriminate].
    apply (IH st1); [|assumption]. apply (reach_step st ev); assumption.
Qed.

(** ** C9 *)

(** What the Reset button does: [questions], [history] and [answer] are
    emptied; the parameters and [currentIndex] are left as they are. *)
Lemma reset_effect st :
  questions (reset st) = [] /\ history (reset st) = [] /\ answer (reset st) = []
  /\ role (reset st) = role st /\ company (reset st) = company st
  /\ program (reset st) = program st
  /\ currentIndex (reset st) = currentIndex st.
Proof. repeat split. Qed.

(** C9, at a state reached by fetching three questions and pressing Next
    twice: Reset empties [questions] and [history] and keeps the parameters,
    but [currentIndex] stays 2 ([fetchQuestions] calls [setCurrentIndex(0)];
    the Reset callback does not). *)
Theorem reset_keeps_currentIndex :
  let up := fun _ : outbound =>
              UpContent (Some (lit "1. Q1" ++ [LF] ++ lit "2. Q2" ++ [LF] ++ lit "3. Q3")) in
  let fetched :=
    fst (serve (Some (lit "sk-test")) up (POST (generate_body initial_state))) in
  exists st,
    fetched = Http (json (QuestionsBody [lit "Q1"; lit "Q2"; lit "Q3"]))
    /\ handle_all initial_state [ClickFetch fetched; ClickNext; ClickNext] = Some st
    /\ reachable st
    /\ currentIndex st = 2%Z
    /\ questions (reset st) = [] /\ history (reset st) = []
    /\ role (reset st) = role st /\ company (reset st) = company st
    /\ program (reset st) = program st
    /\ currentIndex (reset st) = 2%Z
    /\ currentIndex (reset st) <> 0%Z.
Proof.
  intros up fetched.
  assert (Hf : fetched = Http (json (QuestionsBody [lit "Q1"; lit "Q2"; lit "Q3"])))
    by (vm_compute; reflexivity).
  rewrite Hf. eexists. split; [reflexivity|]. split; [reflexivity|]. split.
  - apply (handle_all_reachable
             [ClickFetch (Http (json (QuestionsBody [lit "Q1"; lit "Q2"; lit "Q3"])));
              ClickNext; ClickNext]
             initial_state); [apply reach_init|reflexivity].
  - repeat split. discriminate.
Qed.

(** ** C8 *)

Lemma selected_in_range st q :
  selected st = Some q -> (0 <= currentIndex st < len (questions st))%Z.
Proof.
  unfold selected, index, len. intros H.
  destruct (currentIndex st <? 0)%Z eqn:Hneg; [discriminate|].
  apply Z.ltb_ge in Hneg.
  destruct (nth_error (questions st) (Z.to_nat (currentIndex st))) eqn:Hn;
    [|discriminate].
  assert (Hlt : (Z.to_nat (currentIndex st) < List.length (questions st))%nat).
  { apply nth_error_Some. congruence. }
  lia.
Qed.

Lemma len_zero_nil {A} (l : list A) : len l = 0%Z <-> l = [].
Proof.
  unfold len. destruct l; simpl; split; intros; reflexivity || discriminate.
Qed.

Lemma handle_index_selects st ev st' :
  index_selects st -> handle st ev = Some st' -> index_selects st'.
Proof.
  unfold handle, index_selects. intros [H0 Hlt] H.
  destruct (rendered st ev) eqn:Hr; [|discriminate].
  injection H as <-.
  destruct ev as [v|v|v|v|res| |res| |]; cbn [rendered] in Hr;
    try (split; assumption).
  - (* Fetch Questions *)
    unfold settle, fetchQuestions. cbn [run_client].
    destruct (res_json res) as [data|e]; cbn; [|split; assumption].
    split; [lia|]. intros Hne.
    unfold len. destruct (data_questions data); [contradiction|]. simpl. lia.
  - (* Reset *)
    cbn. split; [assumption|]. congruence.
  - (* Submit *)
    unfold settle, gradeAnswer.
    destruct (selected st) as [q|] eqn:Hsel; [|split; assumption].
    apply selected_in_range in Hsel. cbn [run_client].
    destruct (res_json res) as [data|e]; cbn; [|split; assumption].
    split; [lia|]. intros _. lia.
  - (* Prev *)
    cbn. split; [lia|]. intros Hne. specialize (Hlt Hne). lia.
  - (* Next *)
    apply negb_true_iff, Z.eqb_neq in Hr. pose proof (len_nonneg (questions st)).
    cbn. split; [lia|]. intros _. lia.
Qed.

(** In every reachable state with at least one question, the index selects
    one of them; in every reachable state it is at least 0. *)
Lemma reachable_index_selects st : reachable st -> index_selects st.
Proof.
  induction 1 as [|st ev st' _ IH Hstep].
  - split; [cbn; lia|]. intros H. contradiction H. reflexivity.
  - eapply handle_index_selects; eassumption.
Qed.

(** Submit and Next saturate at the last question. *)
Lemma advance_saturates st ev st' :
  reachable st -> (ev = ClickNext \/ exists res, ev = ClickSubmit res) ->
  handle st ev = Some st' ->
  questions st' = questions st
  /\ (currentIndex st' <= len (questions st) - 1)%Z
  /\ (currentIndex st = len (questions st) - 1 ->
      currentIndex st' = currentIndex st)%Z.
Proof.
  intros Hreach Hev H. apply reachable_index_selects in Hreach as [H0 Hlt].
  unfold handle in H. destruct (rendered st ev) eqn:Hr; [|discriminate].
  injection H as <-.
  assert (Hne : questions st <> []).
  { destruct Hev as [->|[res ->]]; cbn [rendered] in Hr;
      apply negb_true_iff, Z.eqb_neq in Hr; rewrite <- len_zero_nil; assumption. }
  specialize (Hlt Hne).
  destruct Hev as [->|[res ->]].
  - cbn. repeat split; lia.
  - unfold settle, gradeAnswer.
    destruct (selected st) as [q|] eqn:Hsel; [|cbn; repeat split; lia].
    cbn [run_client]. destruct (res_json res) as [data|e]; cbn; repeat split; lia.
Qed.

(** C8, at a state reached by fetching two questions, grading the first and
    pressing Reset: [questions] is empty and [currentIndex] is 1, outside
    [0 <= currentIndex < max(1, questions.length)]. *)
Theorem reset_breaks_index_in_range :
  let key := Some (lit "sk-test") in
  let up1 := fun _ : outbound => UpContent (Some (lit "1. Q1" ++ [LF] ++ lit "2. Q2")) in
  let up2 := fun _ : outbound => UpContent (Some (lit "7" ++ [LF] ++ lit "Good.")) in
  let fetched := fst (serve key up1 (POST (generate_body initial_state))) in
  let st1 := settle fetched (fetchQuestions initial_state) in
  let graded := fst (serve key up2 (POST (grade_body st1 (lit "Q1")))) in
  exists st,
    fetched = Http (json (QuestionsBody [lit "Q1"; lit "Q2"]))
    /\ graded = Http (json (GradeBody 7 (lit "Good.")))
    /\ handle_all initial_state [ClickFetch fetched; ClickSubmit graded; ClickReset]
       = Some st
    /\ reachable st
    /\ questions st = [] /\ currentIndex st = 1%Z
    /\ ~ index_in_range st.
Proof.
  intros key up1 up2 fetched st1 graded.
  assert (Hf : fetched = Http (json (QuestionsBody [lit "Q1"; lit "Q2"])))
    by (vm_compute; reflexivity).
  assert (Hg : graded = Http (json (GradeBody 7 (lit "Good."))))
    by (vm_compute; reflexivity).
  rewrite Hf, Hg. eexists. do 3 (split; [reflexivity|]).
  split; [|split; [reflexivity|split; [reflexivity|]]].
  - apply (handle_all_reachable
             [ClickFetch (Http (json (QuestionsBody [lit "Q1"; lit "Q2"])));
              ClickSubmit (Http (json (GradeBody 7 (lit "Good."))));
              ClickReset]
             initial_state); [apply reach_init|reflexivity].
  - unfold index_in_range. cbn. lia.
Qed.

(** ** C2 *)

(** C2, at the empty text and at a text of white space: [parseGrade] throws
    a TypeError, and the handler answers the grade_answer request with
    status 500 instead of [{score: 0, feedback: ""}]. *)
Theorem parseGrade_empty_text_throws :
  let key := Some (lit "sk-test") in
  let b := mkBody (JStr (lit "grade_answer")) (JStr (lit "Nurse")) JUndefined
                  JUndefined (JStr (lit "Q1")) (JStr (lit "my answer")) in
  parseGrade [] = Threw (TypeError_undefined (lit "match"))
  /\ parseGrade ([SPACE; LF; 9; SPACE; LF]) = Threw (TypeError_undefined (lit "match"))
  /\ fst (run_srv (fun _ => UpContent (Some [])) (handler key (POST b)))
     = Returned (mkResponse 500
         (Some (ErrorBody (RuntimeText (TypeError_undefined (lit "match")))))).
Proof.
  intros key b. split; [|split].
  - apply parseGrade_blank_throws. reflexivity.
  - apply parseGrade_blank_throws. reflexivity.
  - rewrite handler_grade by reflexivity. reflexivity.
Qed.

(** * Further properties of the parsers *)

(** ** What [trim] leaves *)

Lemma trimStart_not_space_first s : not_space_first (trimStart s) = true.
Proof.
  induction s as [|c s IH]; simpl; [reflexivity|].
  destruct (is_space c) eqn:Hc; [assumption|]. simpl. rewrite Hc. reflexivity.
Qed.

Lemma trimStart_split s :
  exists p, s = p ++ trimStart s /\ all_spaces p = true.
Proof.
  induction s as [|c s (p & Hp & Hs)]; simpl.
  - exists []. split; reflexivity.
  - destruct (is_space c) eqn:Hc.
    + exists (c :: p). split; [simpl; congruence|]. simpl. rewrite Hc. assumption.
    + exists []. split; reflexivity.
Qed.

Lemma not_space_first_app s t :
  s <> [] -> not_space_first (s ++ t) = not_space_first s.
Proof. destruct s; [contradiction|reflexivity]. Qed.

Lemma trim_trimmed s : trimmed (trim s) = true.
Proof.
  unfold trimmed, trim, trimEnd. rewrite rev_involutive, trimStart_not_space_first.
  rewrite andb_true_r.
  destruct (trimStart_split (rev (trimStart s))) as (p & Hp & _).
  apply (f_equal (@rev code_unit)) in Hp. rewrite rev_involutive, rev_app_distr in Hp.
  destruct (rev (trimStart (rev (trimStart s)))) as [|c t] eqn:E; [reflexivity|].
  pose proof (trimStart_not_space_first s) as H. rewrite Hp in H. exact H.
Qed.

Lemma forallb_rev {A} (f : A -> bool) l : forallb f (rev l) = forallb f l.
Proof.
  induction l as [|x l IH]; simpl; [reflexivity|].
  rewrite forallb_app, IH. simpl. rewrite andb_true_r. apply andb_comm.
Qed.

Lemma trimStart_no_LF s : no_LF s = true -> no_LF (trimStart s) = true.
Proof.
  intros H. destruct (trimStart_split s) as (p & Hp & _).
  rewrite Hp, no_LF_app in H. apply andb_true_iff in H. tauto.
Qed.

Lemma trim_no_LF s : no_LF s = true -> no_LF (trim s) = true.
Proof.
  intros H. unfold trim, trimEnd, no_LF. rewrite forallb_rev.
  apply trimStart_no_LF. unfold no_LF. rewrite forallb_rev.
  apply trimStart_no_LF. assumption.
Qed.

Lemma trimStart_nil_blank s : trimStart s = [] -> all_spaces s = true.
Proof.
  intros H. destruct (trimStart_split s) as (p & Hp & Hs).
  rewrite H, app_nil_r in Hp. congruence.
Qed.

Lemma trim_nil_blank s : trim s = [] -> all_spaces s = true.
Proof.
  unfold trim, trimEnd. intros H.
  apply (f_equal (@rev code_unit)) in H. rewrite rev_involutive in H. simpl in H.
  apply trimStart_nil_blank in H. unfold all_spaces in H. rewrite forallb_rev in H.
  destruct (trimStart s) as [|c t] eqn:E; [apply trimStart_nil_blank; assumption|].
  pose proof (trimStart_not_space_first s) as Hf. rewrite E in Hf.
  simpl in H, Hf. apply andb_true_iff in H as [Hc _]. rewrite Hc in Hf. discriminate.
Qed.

(** ** Segments *)

Lemma split_LFs_no_LF s : forallb no_LF (split_LFs s) = true.
Proof.
  induction s as [|c s IH]; [reflexivity|]. cbn [split_LFs].
  destruct (c =? LF) eqn:Hc.
  - destruct s as [|c' s']; [reflexivity|].
    destruct (c' =? LF); [assumption|]. simpl. simpl in IH. assumption.
  - destruct (split_LFs s) as [|seg segs]; simpl; rewrite Hc; simpl.
    + reflexivity.
    + simpl in IH. assumption.
Qed.

Lemma split_LF_no_LF s : forallb no_LF (split_LF s) = true.
Proof.
  induction s as [|c s IH]; [reflexivity|]. cbn [split_LF].
  destruct (c =? LF) eqn:Hc.
  - simpl. assumption.
  - destruct (split_LF s) as [|seg segs]; simpl; rewrite Hc; simpl.
    + reflexivity.
    + simpl in IH. assumption.
Qed.

Lemma strip_ordinal_no_LF s : no_LF s = true -> no_LF (strip_ordinal s) = true.
Proof.
  intros H. unfold strip_ordinal.
  destruct (takeDigits s) as [|d ds] eqn:Et; [assumption|].
  destruct (dropDigits s) as [|c r] eqn:Ed; [assumption|].
  destruct (c =? DOT); [|assumption].
  rewrite <- (takeDigits_dropDigits s), Et, Ed, no_LF_app in H.
  apply andb_true_iff in H as [_ H]. simpl in H. apply andb_true_iff in H as [_ H].
  apply trimStart_no_LF. assumption.
Qed.

Lemma takeDigits_blank s : all_spaces s = true -> takeDigits s = [].
Proof.
  destruct s as [|c s]; simpl; [reflexivity|]. intros H.
  apply andb_true_iff in H as [Hc _].
  destruct (is_digit c) eqn:Hd; [|reflexivity].
  rewrite (digit_not_space c Hd) in Hc. discriminate.
Qed.

Lemma strip_ordinal_blank s : all_spaces s = true -> strip_ordinal s = s.
Proof. intros H. unfold strip_ordinal. rewrite takeDigits_blank by assumption. reflexivity. Qed.

Lemma split_LFs_blank text :
  all_spaces text = true -> Forall (fun s => all_spaces s = true) (split_LFs text).
Proof.
  induction text as [|c s IH]; intros H.
  - repeat constructor.
  - simpl in H. apply andb_true_iff in H as [Hc Hs]. specialize (IH Hs).
    cbn [split_LFs]. destruct (c =? LF).
    + destruct s as [|c' s']; [repeat constructor|].
      destruct (c' =? LF); [assumption|]. constructor; [reflexivity|assumption].
    + destruct (split_LFs s) as [|seg segs];
        [repeat constructor; simpl; rewrite Hc; reflexivity|].
      inversion IH; subst. constructor; [|assumption].
      simpl. rewrite Hc. assumption.
Qed.

(** X1. Every question [parseQuestions] returns is non-empty, holds no line
    feed, and has no white space at either end. *)
Theorem parseQuestions_entries (text : jsstring) :
  Forall (fun q => q <> [] /\ no_LF q = true /\ trimmed q = true)
         (parseQuestions text).
Proof.
  apply Forall_forall. intros q Hq. unfold parseQuestions in Hq.
  apply filter_In in Hq as [Hin Hne]. apply in_map_iff in Hin as (seg & <- & Hseg).
  split; [apply truthy_str_true; assumption|]. split; [|apply trim_trimmed].
  apply trim_no_LF, strip_ordinal_no_LF.
  pose proof (split_LFs_no_LF text) as H.
  rewrite forallb_forall in H. apply H. assumption.
Qed.

(** X2. On a text that is empty or made of white space only (line feeds
    included), [parseQuestions] returns the empty list. *)
Theorem parseQuestions_blank (text : jsstring) :
  all_spaces text = true -> parseQuestions text = [].
Proof.
  intros H. apply split_LFs_blank in H. unfold parseQuestions.
  induction H as [|x l Hx _ IH]; [reflexivity|].
  simpl. rewrite (strip_ordinal_blank x Hx), (trim_blank x Hx). assumption.
Qed.

Lemma parseQuestions_blank_witness :
  all_spaces [SPACE; LF; LF; 9; 13; LF; 160] = true
  /\ parseQuestions [SPACE; LF; LF; 9; 13; LF; 160] = [].
Proof.
  assert (H : all_spaces [SPACE; LF; LF; 9; 13; LF; 160] = true) by reflexivity.
  split; [exact H|]. exact (parseQuestions_blank _ H).
Defined.

(** ** Line feeds between questions *)

Lemma split_LFs_leading_segments r :
  hd [] (split_LFs (LF :: r)) = [] /\
  filter truthy_str (tl (split_LFs (LF :: r))) = filter truthy_str (split_LFs r).
Proof.
  induction r as [|c r IH].
  - split; reflexivity.
  - change (split_LFs (LF :: c :: r))
      with (if c =? LF then split_LFs (c :: r) else [] :: split_LFs (c :: r)).
    destruct (c =? LF) eqn:Hc; [|split; reflexivity].
    apply N.eqb_eq in Hc. subst c. destruct IH as [Hh Ht]. split; [assumption|].
    pose proof (split_LFs_not_nil (LF :: r)).
    destruct (split_LFs (LF :: r)) as [|h t]; [contradiction|].
    simpl in Hh. subst h. reflexivity.
Qed.

Lemma split_LFs_cons_other c s :
  (c =? LF) = false ->
  split_LFs (c :: s) = (c :: hd [] (split_LFs s)) :: tl (split_LFs s).
Proof.
  intros Hc. cbn [split_LFs]. rewrite Hc.
  pose proof (split_LFs_not_nil s). destruct (split_LFs s); [contradiction|reflexivity].
Qed.

Lemma hd_tl_split_LFs s : split_LFs s = hd [] (split_LFs s) :: tl (split_LFs s).
Proof.
  pose proof (split_LFs_not_nil s). destruct (split_LFs s); [contradiction|reflexivity].
Qed.

Lemma split_LFs_app_LF s t :
  hd [] (split_LFs (s ++ LF :: t)) = hd [] (split_LFs s) /\
  filter truthy_str (tl (split_LFs (s ++ LF :: t)))
  = filter truthy_str (tl (split_LFs s)) ++ filter truthy_str (split_LFs t).
Proof.
  induction s as [|c s [IHh IHt]].
  - destruct (split_LFs_leading_segments t) as [Hh Ht]. split; assumption.
  - rewrite <- app_comm_cons. destruct (c =? LF) eqn:Hc.
    + apply N.eqb_eq in Hc. subst c.
      destruct (split_LFs_leading_segments (s ++ LF :: t)) as [Hh Ht].
      destruct (split_LFs_leading_segments s) as [Hh' Ht'].
      split; [congruence|]. rewrite Ht, Ht'.
      rewrite (hd_tl_split_LFs (s ++ LF :: t)), (hd_tl_split_LFs s), IHh.
      cbn [filter]. rewrite IHt.
      destruct (truthy_str (hd [] (split_LFs s))); reflexivity.
    + rewrite !split_LFs_cons_other by assumption. cbn [hd tl].
      split; [congruence|assumption].
Qed.

Lemma kept_filter segs : kept segs = kept (filter truthy_str segs).
Proof.
  unfold kept. induction segs as [|x segs IH]; [reflexivity|].
  destruct x as [|c x]; [exact IH|].
  cbn [filter truthy_str map]. rewrite <- IH. reflexivity.
Qed.

Lemma kept_app a b : kept (a ++ b) = kept a ++ kept b.
Proof. unfold kept. rewrite map_app, filter_app. reflexivity. Qed.

Lemma parseQuestions_LF s t :
  parseQuestions (s ++ LF :: t) = parseQuestions s ++ parseQuestions t.
Proof.
  unfold parseQuestions. fold (kept (split_LFs (s ++ LF :: t))).
  fold (kept (split_LFs s)). fold (kept (split_LFs t)).
  destruct (split_LFs_app_LF s t) as [Hh Ht].
  rewrite (kept_filter (split_LFs (s ++ LF :: t))), (kept_filter (split_LFs s)),
    (kept_filter (split_LFs t)), <- kept_app. f_equal.
  rewrite (hd_tl_split_LFs (s ++ LF :: t)), (hd_tl_split_LFs s) at 1.
  rewrite Hh. cbn [filter]. rewrite Ht.
  destruct (truthy_str (hd [] (split_LFs s))); reflexivity.
Qed.

(** X3. Parsing two texts separated by a line feed gives the questions of
    the first followed by the questions of the second: questions never span
    a line feed, and extra line feeds add nothing. *)
Theorem parseQuestions_app_LF (s t : jsstring) :
  parseQuestions (s ++ LF :: t) = parseQuestions s ++ parseQuestions t.
Proof. apply parseQuestions_LF. Qed.

Lemma parseQuestions_join segs :
  forallb no_LF segs = true -> parseQuestions (join [LF] segs) = kept segs.
Proof.
  induction segs as [|x segs IH]; [reflexivity|].
  intros H. simpl in H. apply andb_true_iff in H as [Hx Hs].
  destruct segs as [|y segs].
  - apply parseQuestions_one. assumption.
  - change (join [LF] (x :: y :: segs)) with (x ++ LF :: join [LF] (y :: segs)).
    rewrite parseQuestions_LF, (parseQuestions_one x Hx), (IH Hs).
    change (x :: y :: segs) with ([x] ++ y :: segs). rewrite kept_app. reflexivity.
Qed.

(** X20. Splitting at runs of line feeds, as [parseQuestions] does, gives
    the same questions as splitting at every single line feed, the way
    [parseGrade] splits: the empty segments of the latter are dropped by the
    filter. *)
Theorem parseQuestions_by_single_LF (text : jsstring) :
  parseQuestions text
  = filter truthy_str (map (fun s => trim (strip_ordinal s)) (split_LF text)).
Proof.
  rewrite <- (join_split_LF text) at 1.
  apply (parseQuestions_join (split_LF text)). apply split_LF_no_LF.
Qed.

(** ** When the grade parser fails *)

Lemma join_LF_blank segs :
  Forall (fun s => all_spaces s = true) segs -> all_spaces (join [LF] segs) = true.
Proof.
  induction 1 as [|x l Hx Hl IH]; [reflexivity|].
  destruct l as [|y l]; [exact Hx|].
  change (join [LF] (x :: y :: l)) with (x ++ [LF] ++ join [LF] (y :: l)).
  unfold all_spaces in *. rewrite !forallb_app, Hx, IH. reflexivity.
Qed.

Lemma grade_lines_nil_blank text : grade_lines text = [] -> all_spaces text = true.
Proof.
  intros H. rewrite <- (join_split_LF text). apply join_LF_blank.
  unfold grade_lines in H. induction (split_LF text) as [|x l IH]; constructor.
  - simpl in H. destruct (trim x) eqn:Hx; [|discriminate].
    apply trim_nil_blank. assumption.
  - apply IH. simpl in H. destruct (truthy_str (trim x)); [discriminate|assumption].
Qed.

(** X4. [parseGrade] throws exactly on the texts that are empty or made of
    white space only; on every other text it returns a grade. *)
Theorem parseGrade_throws_iff_blank (text : jsstring) :
  (exists e, parseGrade text = Threw e) <-> all_spaces text = true.
Proof.
  split.
  - intros [e He]. apply grade_lines_nil_blank. unfold parseGrade in He.
    destruct (grade_lines text); [reflexivity|discriminate].
  - intros H. eexists. apply parseGrade_blank_throws. assumption.
Qed.

(** ** What the grade parser returns *)

Lemma decimal_value_nonneg ds : (0 <= decimal_value ds)%Z.
Proof.
  induction ds as [|d ds IH]; simpl; [lia|].
  assert (0 <= digit_value d)%Z by (unfold digit_value; lia).
  assert (0 <= 10 ^ len ds)%Z by (apply Z.pow_nonneg; lia).
  nia.
Qed.

Lemma score_of_nonneg line : number_le 0 (score_of line).
Proof.
  unfold score_of. destruct (match_digits line) as [m|]; [|cbn; lia].
  unfold parseInt10. rewrite fold_digits_value. apply round_to_double_nonneg.
  pose proof (decimal_value_nonneg (takeDigits m)). lia.
Qed.

Lemma grade_lines_entries text :
  Forall (fun l => l <> [] /\ no_LF l = true /\ trimmed l = true) (grade_lines text).
Proof.
  apply Forall_forall. intros l Hl. unfold grade_lines in Hl.
  apply filter_In in Hl as [Hin Hne]. apply in_map_iff in Hin as (seg & <- & Hseg).
  split; [apply truthy_str_true; assumption|]. split; [|apply trim_trimmed].
  apply trim_no_LF. pose proof (split_LF_no_LF text) as H.
  rewrite forallb_forall in H. apply H. assumption.
Qed.

Lemma not_space_first_true_app s t :
  not_space_first s = true -> not_space_first t = true ->
  not_space_first (s ++ t) = true.
Proof. destruct s; simpl; auto. Qed.

Lemma join_space_entries ls :
  Forall (fun l => l <> [] /\ no_LF l = true /\ trimmed l = true) ls ->
  no_LF (join [SPACE] ls) = true /\ trimmed (join [SPACE] ls) = true.
Proof.
  induction 1 as [|x l (Hne & Hx & Ht) Hl [IHn IHt]]; [split; reflexivity|].
  destruct l as [|y l]; [split; assumption|].
  change (join [SPACE] (x :: y :: l)) with (x ++ [SPACE] ++ join [SPACE] (y :: l)).
  split.
  - rewrite !no_LF_app, Hx, IHn. reflexivity.
  - unfold trimmed in *. apply andb_true_iff in Ht as [Hf Hr].
    apply andb_true_iff in IHt as [IHf IHr].
    rewrite not_space_first_app by assumption. rewrite Hf. simpl andb.
    rewrite rev_app_distr. cbn [app rev]. rewrite <- !app_assoc.
    inversion Hl as [|? ? (Hy & _) _]; subst.
    assert (Hj : join [SPACE] (y :: l) <> []).
    { destruct l; simpl; [assumption|]. destruct y; [contradiction|discriminate]. }
    rewrite not_space_first_app; [assumption|].
    intros E. apply Hj. apply (f_equal (@rev code_unit)) in E.
    rewrite rev_involutive in E. assumption.
Qed.

(** X5. Whatever the text, a grade returned by [parseGrade] has a score that
    is at least 0 (a sign before the digits is not read), and a feedback made
    of one line: it holds no line feed and has no white space at either
    end. *)
Theorem parseGrade_result_shape (text : jsstring) (g : GradeResult) :
  parseGrade text = Returned g ->
  number_le 0 (score g) /\ no_LF (feedback g) = true /\ trimmed (feedback g) = true.
Proof.
  unfold parseGrade. intros H. pose proof (grade_lines_entries text) as Hl.
  destruct (grade_lines text) as [|line0 rest]; [discriminate|].
  injection H as <-. cbn [score feedback slice1 tl].
  split; [apply score_of_nonneg|].
  apply join_space_entries. inversion Hl; assumption.
Qed.

Lemma parseGrade_result_shape_witness :
  let text := lit "Score: -7/10 " ++ [LF; LF] ++ lit "  Clear.  " ++ [LF] ++ lit " Add data." in
  parseGrade text = Returned (mkGrade 7 (lit "Clear. Add data."))
  /\ number_le 0 7 /\ no_LF (lit "Clear. Add data.") = true
  /\ trimmed (lit "Clear. Add data.") = true.
Proof.
  intros text.
  assert (H : parseGrade text = Returned (mkGrade 7 (lit "Clear. Add data.")))
    by reflexivity.
  split; [exact H|]. exact (parseGrade_result_shape text _ H).
Defined.

(** * Further properties of the handler *)

Lemma request_eta req : req = mkRequest (method req) (body req).
Proof. destruct req. reflexivity. Qed.

Lemma run_openaiCompletion_key up c k prompt :
  run_srv up (openaiCompletion (Some (c :: k)) prompt)
  = (match up (completion_call (c :: k) prompt) with
     | UpRejected => Threw FetchRejected
     | UpNoChoices => Threw (Error (lit "OpenAI error"))
     | UpNoMessage => Threw (TypeError_undefined (lit "content"))
     | UpContent x => Returned x
     end, [completion_call (c :: k) prompt]).
Proof.
  unfold openaiCompletion. cbn [run_srv]. fold (completion_call (c :: k) prompt).
  destruct (up (completion_call (c :: k) prompt)); reflexivity.
Qed.

Lemma run_openaiCompletion_no_key up key prompt :
  key = None \/ key = Some [] ->
  run_srv up (openaiCompletion key prompt)
  = (Threw (Error (lit "OPENAI_API_KEY not set")), []).
Proof. intros [->| ->]; reflexivity. Qed.

(** The three ways a POST request goes, by its action. *)
Lemma action_cases (v : jsval) :
  v = JStr (lit "generate_questions") \/ v = JStr (lit "grade_answer")
  \/ (v <> JStr (lit "generate_questions") /\ v <> JStr (lit "grade_answer")).
Proof.
  destruct (strict_eq_str v "generate_questions") eqn:H1;
    [left; apply strict_eq_str_true; assumption|].
  destruct (strict_eq_str v "grade_answer") eqn:H2;
    [right; left; apply strict_eq_str_true; assumption|].
  right; right. split; apply strict_eq_str_false; assumption.
Qed.

Lemma handler_not_post key req :
  method req <> lit "POST" -> handler key req = SRet (mkResponse 405 None).
Proof.
  intros H. unfold handler.
  destruct (jsstring_eqb (method req) (lit "POST")) eqn:E; [|reflexivity].
  apply jsstring_eqb_eq in E. contradiction.
Qed.

Lemma handler_other_action key req :
  method req = lit "POST" ->
  action (match body req with Some b => b | None => empty_body end)
    <> JStr (lit "generate_questions") ->
  action (match body req with Some b => b | None => empty_body end)
    <> JStr (lit "grade_answer") ->
  handler key req
  = SRet (mkResponse 400 (Some (ErrorBody (Text (lit "invalid action"))))).
Proof.
  intros Hm Hg Hq. unfold handler. rewrite Hm.
  change (jsstring_eqb (lit "POST") (lit "POST")) with true. cbn [negb].
  apply strict_eq_str_false in Hg, Hq. rewrite Hg, Hq. reflexivity.
Qed.

(** A request whose action is one of the two stages carries a body. *)
Lemma stage_request req v :
  method req = lit "POST" ->
  action (match body req with Some b => b | None => empty_body end) = JStr v ->
  exists b, req = POST b /\ action b = JStr v.
Proof.
  intros Hm Ha. rewrite (request_eta req), Hm.
  destruct (body req) as [b|]; [|discriminate].
  exists b. split; [reflexivity|assumption].
Qed.

(** X6. Whatever the request, the key and the model service, the handler
    answers (it never throws): with status 405 and no body exactly when the
    method is not POST, and otherwise with a JSON body and status 200, 400
    or 500. *)
Theorem handler_always_answers key up (req : request) :
  exists r,
    fst (run_srv up (handler key req)) = Returned r
    /\ (status r = 405%Z <-> method req <> lit "POST")
    /\ (payload r = None <-> method req <> lit "POST")
    /\ (status r = 200 \/ status r = 400 \/ status r = 405 \/ status r = 500)%Z.
Proof.
  destruct (jsstring_eqb (method req) (lit "POST")) eqn:Hm.
  - apply jsstring_eqb_eq in Hm.
    assert (Hshape : forall r : response,
               status r <> 405%Z -> payload r <> None ->
               (status r = 200 \/ status r = 400 \/ status r = 500)%Z ->
               (status r = 405%Z <-> method req <> lit "POST")
               /\ (payload r = None <-> method req <> lit "POST")
               /\ (status r = 200 \/ status r = 400 \/ status r = 405 \/ status r = 500)%Z).
    { intros r H1 H2 H3. repeat split; intros; try contradiction; tauto. }
    destruct (action_cases
                (action (match body req with Some b => b | None => empty_body end)))
      as [Ha|[Ha|[Hg Hq]]].
    + destruct (stage_request req _ Hm Ha) as (b & -> & Hb).
      rewrite (handler_generate_stage key up b Hb).
      destruct (questionTemplate b) as [prompt|e];
        [destruct (run_srv up (openaiCompletion key prompt)) as [[[t|]|e] log]|];
        eexists; (split; [reflexivity|]); apply Hshape; cbn;
        try discriminate; tauto.
    + destruct (stage_request req _ Hm Ha) as (b & -> & Hb).
      rewrite (handler_grade_stage key up b Hb).
      destruct (gradingTemplate b) as [prompt|e];
        [destruct (run_srv up (openaiCompletion key prompt)) as [[[t|]|e] log];
         [destruct (parseGrade t)|..]|];
        eexists; (split; [reflexivity|]); apply Hshape; cbn;
        try discriminate; tauto.
    + rewrite (handler_other_action key req Hm Hg Hq).
      eexists; (split; [reflexivity|]); apply Hshape; cbn; try discriminate; tauto.
  - assert (Hne : method req <> lit "POST").
    { intros E. apply jsstring_eqb_eq in E. congruence. }
    rewrite (handler_not_post key req Hne). eexists. split; [reflexivity|].
    cbn. tauto.
Qed.

(** The calls of a stage, once its prompt is built. *)
Lemma stage_calls {A} key up prompt
    (f : result (option jsstring) * list outbound -> result A * list outbound) :
  (forall r log, snd (f (r, log)) = log) ->
  forall c, In c (snd (f (run_srv up (openaiCompletion key prompt)))) ->
    exists k, key = Some k /\ k <> [] /\ c = completion_call k prompt
      /\ snd (f (run_srv up (openaiCompletion key prompt))) = [c].
Proof.
  intros Hf c. destruct key as [[|c0 k]|].
  1,3: rewrite run_openaiCompletion_no_key by tauto; rewrite Hf; intros [].
  rewrite run_openaiCompletion_key, Hf. intros [<-|[]].
  exists (c0 :: k). repeat split. discriminate.
Qed.

(** X7. The handler makes at most one outbound call per request, and only
    for a POST request of one of the two stages, when every field of the
    prompt converts to a string and the API key is set. The call goes to the
    chat completions endpoint with the key as bearer, the model gpt-4o-mini,
    700 tokens at most, and the prompt of the stage. *)
Theorem handler_outbound_calls key up (req : request) :
  let b := match body req with Some b => b | None => empty_body end in
  let log := snd (run_srv up (handler key req)) in
  (List.length log <= 1)%nat
  /\ forall c, In c log ->
       exists k, key = Some k /\ k <> [] /\ method req = lit "POST"
         /\ ((action b = JStr (lit "generate_questions")
              /\ questionTemplate b = Returned (questionPrompt b)
              /\ c = completion_call k (questionPrompt b))
             \/ (action b = JStr (lit "grade_answer")
                 /\ gradingTemplate b = Returned (gradingPrompt b)
                 /\ c = completion_call k (gradingPrompt b))).
Proof.
  intros b log.
  assert (Hmain : forall c, In c log ->
            (exists k, key = Some k /\ k <> [] /\ method req = lit "POST"
               /\ ((action b = JStr (lit "generate_questions")
                    /\ questionTemplate b = Returned (questionPrompt b)
                    /\ c = completion_call k (questionPrompt b))
                   \/ (action b = JStr (lit "grade_answer")
                       /\ gradingTemplate b = Returned (gradingPrompt b)
                       /\ c = completion_call k (gradingPrompt b))))
            /\ log = [c]).
  { subst log. intros c.
    destruct (jsstring_eqb (method req) (lit "POST")) eqn:Hm.
    2:{ rewrite handler_not_post; [intros []|].
        intros E. apply jsstring_eqb_eq in E. congruence. }
    apply jsstring_eqb_eq in Hm.
    destruct (action_cases (action b)) as [Ha|[Ha|[Hg Hq]]].
    3:{ subst b. rewrite handler_other_action by assumption. intros []. }
    - subst b. destruct (stage_request req _ Hm Ha) as (b & -> & Hb).
      cbn [body POST] in *. rewrite (handler_generate_stage key up b Hb).
      destruct (questionTemplate b) as [prompt|e] eqn:Ht; [|intros []].
      pose proof (template_text _ _ _ Ht) as ->.
      intros Hin.
      destruct (stage_calls key up (questionPrompt b)
                  (fun x => match x with
                            | (Returned (Some text), log) =>
                                (Returned (json (QuestionsBody (parseQuestions text))), log)
                            | (Returned None, log) =>
                                (Returned (status_json 500
                                   (ErrorBody (RuntimeText (TypeError_undefined (lit "split"))))), log)
                            | (Threw e, log) =>
                                (Returned (status_json 500 (ErrorBody (error_message e))), log)
                            end)) with (c := c) as (k & Hk & Hne & Hc & Hlog).
      + intros [[t|]|e] l; reflexivity.
      + exact Hin.
      + split; [|exact Hlog]. exists k. repeat split; try assumption.
        left. repeat split; assumption.
    - subst b. destruct (stage_request req _ Hm Ha) as (b & -> & Hb).
      cbn [body POST] in *. rewrite (handler_grade_stage key up b Hb).
      destruct (gradingTemplate b) as [prompt|e] eqn:Ht; [|intros []].
      pose proof (template_text _ _ _ Ht) as ->.
      intros Hin.
      destruct (stage_calls key up (gradingPrompt b)
                  (fun x => match x with
                            | (Returned (Some text), log) =>
                                match parseGrade text with
                                | Returned g =>
                                    (Returned (json (GradeBody (to_json (score g)) (feedback g))), log)
                                | Threw e =>
                                    (Returned (status_json 500 (ErrorBody (error_message e))), log)
                                end
                            | (Returned None, log) =>
                                (Returned (status_json 500
                                   (ErrorBody (RuntimeText (TypeError_undefined (lit "split"))))), log)
                            | (Threw e, log) =>
                                (Returned (status_json 500 (ErrorBody (error_message e))), log)
                            end)) with (c := c) as (k & Hk & Hne & Hc & Hlog).
      + intros [[t|]|e] l; try reflexivity. destruct (parseGrade t); reflexivity.
      + exact Hin.
      + split; [|exact Hlog]. exists k. repeat split; try assumption.
        right. repeat split; assumption. }
  split.
  - destruct log as [|c l] eqn:E; [simpl; lia|].
    destruct (Hmain c (or_introl eq_refl)) as [_ Hl]. injection Hl as ->. simpl. lia.
  - intros c Hin. apply (Hmain c Hin).
Qed.

(** ** The answers of the two stages *)

Lemma run_openaiCompletion_text key up prompt :
  match model_text key up prompt with
  | Some text => fst (run_srv up (openaiCompletion key prompt)) = Returned (Some text)
  | None => fst (run_srv up (openaiCompletion key prompt)) = Returned None
            \/ exists e, fst (run_srv up (openaiCompletion key prompt)) = Threw e
  end.
Proof.
  unfold model_text. destruct key as [[|c k]|].
  1,3: right; eexists; reflexivity.
  rewrite run_openaiCompletion_key.
  destruct (up (completion_call (c :: k) prompt)) as [| | |[t|]]; cbn [fst];
    try (right; eexists; reflexivity); [reflexivity|left; reflexivity].
Qed.

(** X8. Without an API key (unset or empty), a request of either stage is
    answered with status 500 and no outbound call is made. The error is
    "OPENAI_API_KEY not set", unless building the prompt has already failed
    on a field that does not convert to a string: the error is then that of
    the conversion. *)
Theorem handler_without_key key up (b : Body) :
  key = None \/ key = Some [] ->
  (action b = JStr (lit "generate_questions") ->
   run_srv up (handler key (POST b))
   = (Returned (mkResponse 500
        (Some (ErrorBody
           match questionTemplate b with
           | Returned _ => Text (lit "OPENAI_API_KEY not set")
           | Threw e => error_message e
           end))), []))
  /\ (action b = JStr (lit "grade_answer") ->
      run_srv up (handler key (POST b))
      = (Returned (mkResponse 500
           (Some (ErrorBody
              match gradingTemplate b with
              | Returned _ => Text (lit "OPENAI_API_KEY not set")
              | Threw e => error_message e
              end))), [])).
Proof.
  intros Hk. split; intros Ha.
  - rewrite (handler_generate_stage key up b Ha).
    destruct (questionTemplate b); [|reflexivity].
    rewrite run_openaiCompletion_no_key by assumption. reflexivity.
  - rewrite (handler_grade_stage key up b Ha).
    destruct (gradingTemplate b); [|reflexivity].
    rewrite run_openaiCompletion_no_key by assumption. reflexivity.
Qed.

Lemma handler_without_key_witness :
  let b := mkBody (JStr (lit "grade_answer")) (JStr (lit "Nurse")) JUndefined
                  JUndefined (JStr (lit "Q1")) (JStr (lit "my answer")) in
  let b' := mkBody (JStr (lit "grade_answer")) (JOther true None) JUndefined
                   JUndefined (JStr (lit "Q1")) (JStr (lit "my answer")) in
  let up := fun _ : outbound => UpContent (Some (lit "9")) in
  (@None jsstring = None \/ @None jsstring = Some [])
  /\ action b = JStr (lit "grade_answer")
  /\ run_srv up (handler None (POST b))
     = (Returned (mkResponse 500
          (Some (ErrorBody (Text (lit "OPENAI_API_KEY not set"))))), [])
  /\ run_srv up (handler None (POST b'))
     = (Returned (mkResponse 500
          (Some (ErrorBody (RuntimeText TypeError_convert)))), []).
Proof.
  intros b b' up.
  assert (Hk : @None jsstring = None \/ @None jsstring = Some []) by (left; reflexivity).
  assert (Ha : action b = JStr (lit "grade_answer")) by reflexivity.
  split; [exact Hk|]. split; [exact Ha|]. split.
  - exact (proj2 (handler_without_key None up b Hk) Ha).
  - exact (proj2 (handler_without_key None up b' Hk) eq_refl).
Defined.

(** X9. A generate_questions request whose role, company or program does
    not convert to a string is answered with status 500 and the conversion
    error, without any outbound call. Otherwise it is answered with status
    200 exactly when the model call returns a text; the body then carries
    the questions parsed from it (none, for instance, when the text is
    empty). In every other case the status is 500 and the body carries an
    error. *)
Theorem handler_generate_answer key up (b : Body) :
  action b = JStr (lit "generate_questions") ->
  match questionTemplate b with
  | Threw e =>
      run_srv up (handler key (POST b))
      = (Returned (mkResponse 500 (Some (ErrorBody (error_message e)))), [])
  | Returned prompt =>
      prompt = questionPrompt b
      /\ match model_text key up prompt with
         | Some text =>
             fst (run_srv up (handler key (POST b)))
             = Returned (mkResponse 200 (Some (QuestionsBody (parseQuestions text))))
         | None =>
             exists m, fst (run_srv up (handler key (POST b)))
                       = Returned (mkResponse 500 (Some (ErrorBody m)))
         end
  end.
Proof.
  intros Ha. rewrite (handler_generate_stage key up b Ha).
  destruct (questionTemplate b) as [prompt|e] eqn:Ht; [|reflexivity].
  split; [exact (template_text _ _ _ Ht)|].
  pose proof (run_openaiCompletion_text key up prompt) as H.
  destruct (model_text key up prompt) as [text|];
    destruct (run_srv up (openaiCompletion key prompt)) as [r log];
    cbn [fst] in H.
  - subst r. reflexivity.
  - destruct H as [->|[e ->]]; eexists; reflexivity.
Qed.

Lemma handler_generate_answer_witness :
  let b := mkBody (JStr (lit "generate_questions")) (JStr (lit "Nurse")) JUndefined
                  JUndefined JUndefined JUndefined in
  let b' := mkBody (JStr (lit "generate_questions")) (JOther true None) JUndefined
                   JUndefined JUndefined JUndefined in
  let up := fun _ : outbound => UpContent (Some []) in
  action b = JStr (lit "generate_questions")
  /\ fst (run_srv up (handler (Some (lit "sk-test")) (POST b)))
     = Returned (mkResponse 200 (Some (QuestionsBody [])))
  /\ run_srv up (handler (Some (lit "sk-test")) (POST b'))
     = (Returned (mkResponse 500 (Some (ErrorBody (RuntimeText TypeError_convert)))), []).
Proof.
  intros b b' up.
  assert (Ha : action b = JStr (lit "generate_questions")) by reflexivity.
  split; [exact Ha|]. split.
  - exact (proj2 (handler_generate_answer (Some (lit "sk-test")) up b Ha)).
  - exact (handler_generate_answer (Some (lit "sk-test")) up b' eq_refl).
Defined.

(** X10. A grade_answer request with a field that does not convert to a
    string is answered with status 500 and the conversion error, without any
    outbound call. Otherwise it is answered with status 200 exactly when the
    model call returns a text from which [parseGrade] returns a grade, that
    is, a text with something else than white space; the body then carries
    the feedback and the score as JSON writes it (null when the score is
    [Infinity]). In every other case the status is 500 and the body carries
    an error. *)
Theorem handler_grade_answer key up (b : Body) :
  action b = JStr (lit "grade_answer") ->
  match gradingTemplate b with
  | Threw e =>
      run_srv up (handler key (POST b))
      = (Returned (mkResponse 500 (Some (ErrorBody (error_message e)))), [])
  | Returned prompt =>
      prompt = gradingPrompt b
      /\ match grade_of (model_text key up prompt) with
         | Some g =>
             fst (run_srv up (handler key (POST b)))
             = Returned (mkResponse 200
                 (Some (GradeBody (to_json (score g)) (feedback g))))
             /\ exists text, model_text key up prompt = Some text
                             /\ all_spaces text = false
         | None =>
             (exists m, fst (run_srv up (handler key (POST b)))
                        = Returned (mkResponse 500 (Some (ErrorBody m))))
             /\ forall text, model_text key up prompt = Some text ->
                             all_spaces text = true
         end
  end.
Proof.
  intros Ha. rewrite (handler_grade_stage key up b Ha).
  destruct (gradingTemplate b) as [prompt|e0] eqn:Ht; [|reflexivity].
  split; [exact (template_text _ _ _ Ht)|].
  pose proof (run_openaiCompletion_text key up prompt) as H.
  unfold grade_of.
  destruct (model_text key up prompt) as [text|];
    destruct (run_srv up (openaiCompletion key prompt)) as [r log];
    cbn [fst] in H.
  - subst r. destruct (parseGrade text) as [g|e] eqn:Hp.
    + split; [reflexivity|]. exists text. split; [reflexivity|].
      destruct (all_spaces text) eqn:Hb; [|reflexivity].
      rewrite (parseGrade_blank_throws text Hb) in Hp. discriminate.
    + split; [eexists; reflexivity|]. intros t [= <-].
      apply grade_lines_nil_blank. unfold parseGrade in Hp.
      destruct (grade_lines text); [reflexivity|discriminate].
  - split; [|discriminate]. destruct H as [->|[e ->]]; eexists; reflexivity.
Qed.

Lemma handler_grade_answer_witness :
  let b := mkBody (JStr (lit "grade_answer")) (JStr (lit "Nurse")) JUndefined
                  JUndefined (JStr (lit "Q1")) (JStr (lit "my answer")) in
  let up := fun _ : outbound => UpContent (Some (lit "11" ++ [LF] ++ lit "Too long.")) in
  let up' := fun _ : outbound => UpContent (Some (repeat 57%N 400)) in
  action b = JStr (lit "grade_answer")
  /\ fst (run_srv up (handler (Some (lit "sk-test")) (POST b)))
     = Returned (mkResponse 200 (Some (GradeBody 11 (lit "Too long."))))
  /\ fst (run_srv up' (handler (Some (lit "sk-test")) (POST b)))
     = Returned (mkResponse 200 (Some (GradeBody Null []))).
Proof.
  intros b up up'.
  assert (Ha : action b = JStr (lit "grade_answer")) by reflexivity.
  split; [exact Ha|]. split.
  - exact (proj1 (proj2 (handler_grade_answer (Some (lit "sk-test")) up b Ha))).
  - exact (proj1 (proj2 (handler_grade_answer (Some (lit "sk-test")) up' b Ha))).
Defined.

(** * Further properties of the page *)

(** ** The two requests, served by the handler *)

Lemma serve_generate_data key up st :
  exists r log data,
    serve key up (POST (generate_body st)) = (Http r, log)
    /\ payload r = Some data
    /\ data_questions data
       = match model_text key up (questionPrompt (generate_body st)) with
         | Some text => parseQuestions text
         | None => []
         end.
Proof.
  unfold serve.
  rewrite handler_generate by (reflexivity || apply questionTemplate_strings).
  pose proof (run_openaiCompletion_text key up (questionPrompt (generate_body st))) as H.
  destruct (model_text key up (questionPrompt (generate_body st))) as [text|];
    destruct (run_srv up (openaiCompletion key (questionPrompt (generate_body st))))
      as [r log]; cbn [fst] in H.
  - subst r. eexists _, _, _. repeat split.
  - destruct H as [->|[e ->]]; eexists _, _, _; repeat split.
Qed.

Lemma serve_grade_data key up st q :
  exists r log data,
    serve key up (POST (grade_body st q)) = (Http r, log)
    /\ payload r = Some data
    /\ data_score data
       = option_map (fun g => to_json (score g)) (grade_of (model_text key up (gradingPrompt (grade_body st q))))
    /\ data_feedback data
       = option_map feedback (grade_of (model_text key up (gradingPrompt (grade_body st q)))).
Proof.
  unfold serve.
  rewrite handler_grade by (reflexivity || apply gradingTemplate_strings).
  pose proof (run_openaiCompletion_text key up (gradingPrompt (grade_body st q))) as H.
  unfold grade_of.
  destruct (model_text key up (gradingPrompt (grade_body st q))) as [text|];
    destruct (run_srv up (openaiCompletion key (gradingPrompt (grade_body st q))))
      as [r log]; cbn [fst] in H.
  - subst r. destruct (parseGrade text) as [g|e]; eexists _, _, _; repeat split.
  - destruct H as [->|[e ->]]; eexists _, _, _; repeat split.
Qed.

(** X11. Served by the handler, [fetchQuestions] always settles without
    error, whatever the key and the model service: the questions become
    those parsed from the model's text, or none when the model call gives no
    text; [currentIndex] is 0, [history] and [answer] are empty, [loading]
    is off, and role, company and program are as before. The state before
    the call has no other influence. *)
Theorem fetchQuestions_through_handler key up (st : SessionState) :
  exists log,
    run_client (serve key up) (fetchQuestions st)
    = (Returned tt,
       mkState (role st) (company st) (program st)
               (match model_text key up (questionPrompt (generate_body st)) with
                | Some text => parseQuestions text
                | None => []
                end)
               0 [] [] false,
       log).
Proof.
  destruct (serve_generate_data key up st) as (r & log & data & Hs & Hp & Hq).
  exists log. rewrite (run_fetchQuestions _ st r log data Hs Hp), Hq. reflexivity.
Qed.

(** X12. Served by the handler, [gradeAnswer] on a selected question always
    settles without error and adds exactly one entry at the head of
    [history]: the question, the answer typed, and the score and feedback
    parsed from the model's text (the score as JSON carries it: null when it
    is [Infinity]), or neither of them when the model call gives no text or
    only white space. [currentIndex] moves one step forward,
    clamped to the last question; [answer] is emptied; the questions and the
    parameters are as before. *)
Theorem gradeAnswer_through_handler key up (st : SessionState) (q : jsstring) :
  selected st = Some q ->
  exists log,
    run_client (serve key up) (gradeAnswer st)
    = (Returned tt,
       mkState (role st) (company st) (program st) (questions st)
               (Z.min (currentIndex st + 1) (len (questions st) - 1)) []
               (mkEntry q (answer st)
                  (option_map (fun g => to_json (score g))
                     (grade_of (model_text key up (gradingPrompt (grade_body st q)))))
                  (option_map feedback
                     (grade_of (model_text key up (gradingPrompt (grade_body st q)))))
                :: history st)
               false,
       log).
Proof.
  intros Hsel.
  destruct (serve_grade_data key up st q) as (r & log & data & Hs & Hp & Hsc & Hfb).
  exists log. rewrite (run_gradeAnswer _ st q r log data Hsel Hs Hp), Hsc, Hfb.
  reflexivity.
Qed.

Lemma gradeAnswer_through_handler_witness :
  let st := mkState (lit "Nurse") [] [] [lit "Q1 (behavioral)"; lit "Q2 (technical)"]
                    1 (lit "my answer") [] false in
  let up := fun _ : outbound => UpContent (Some (lit "6" ++ [LF] ++ lit "Be specific.")) in
  let up' := fun _ : outbound => UpContent (Some (repeat 57%N 400 ++ [LF] ++ lit "ok")) in
  let key := Some (lit "sk-test") in
  selected st = Some (lit "Q2 (technical)")
  /\ (exists log,
        run_client (serve key up) (gradeAnswer st)
        = (Returned tt,
           mkState (lit "Nurse") [] [] [lit "Q1 (behavioral)"; lit "Q2 (technical)"]
                   1 []
                   [mkEntry (lit "Q2 (technical)") (lit "my answer")
                            (Some 6%Z) (Some (lit "Be specific."))]
                   false,
           log))
  /\ (exists log,
        run_client (serve key up') (gradeAnswer st)
        = (Returned tt,
           mkState (lit "Nurse") [] [] [lit "Q1 (behavioral)"; lit "Q2 (technical)"]
                   1 []
                   [mkEntry (lit "Q2 (technical)") (lit "my answer")
                            (Some Null) (Some (lit "ok"))]
                   false,
           log)).
Proof.
  intros st up up' key.
  assert (Hsel : selected st = Some (lit "Q2 (technical)")) by reflexivity.
  split; [exact Hsel|]. split.
  - exact (gradeAnswer_through_handler key up st _ Hsel).
  - exact (gradeAnswer_through_handler key up' st _ Hsel).
Defined.

(** X13. When the request to the API itself fails (the fetch rejects, or the
    response has no JSON body), [fetchQuestions] and [gradeAnswer] reject
    with that error; questions, [currentIndex], [history] and [answer] are
    untouched, but [loading] is left on. *)
Theorem request_failure_leaves_loading (res : http_result) (e : exn) (st : SessionState) :
  res_json res = Threw e ->
  run_client (fun _ => (res, [])) (fetchQuestions st) = (Threw e, setLoading true st, [])
  /\ (forall q, selected st = Some q ->
        run_client (fun _ => (res, [])) (gradeAnswer st)
        = (Threw e, setLoading true st, [])).
Proof.
  intros H. split.
  - unfold fetchQuestions. cbn [run_client]. rewrite H. reflexivity.
  - intros q Hsel. unfold gradeAnswer. rewrite Hsel. cbn [run_client]. rewrite H.
    reflexivity.
Qed.

Lemma request_failure_leaves_loading_witness :
  res_json (Http (mkResponse 405 None)) = Threw FetchRejected
  /\ run_client (fun _ => (Http (mkResponse 405 None), [])) (fetchQuestions initial_state)
     = (Threw FetchRejected, setLoading true initial_state, []).
Proof.
  assert (H : res_json (Http (mkResponse 405 None)) = Threw FetchRejected) by reflexivity.
  split; [exact H|].
  exact (proj1 (request_failure_leaves_loading _ _ initial_state H)).
Defined.

(** ** Moving between questions *)

(** X14. Prev at the first question and Next at the last one change
    nothing; away from these ends, Prev undoes Next and Next undoes Prev. *)
Theorem previous_next_steps (st : SessionState) :
  (currentIndex st = 0 -> previous st = st)%Z
  /\ (currentIndex st = len (questions st) - 1 -> next st = st)%Z
  /\ (0 <= currentIndex st < len (questions st) - 1 -> previous (next st) = st)%Z
  /\ (0 < currentIndex st <= len (questions st) - 1 -> next (previous st) = st)%Z.
Proof.
  destruct st as [r c p qs i a h l].
  unfold previous, next, setCurrentIndex. cbn.
  repeat split; intros H; f_equal; lia.
Qed.

Lemma previous_next_steps_witness :
  let st := mkState (lit "Nurse") [] [] [lit "Q1"; lit "Q2"; lit "Q3"] 1 [] [] false in
  (0 <= currentIndex st < len (questions st) - 1)%Z
  /\ (0 < currentIndex st <= len (questions st) - 1)%Z
  /\ previous (next st) = st /\ next (previous st) = st.
Proof.
  intros st.
  assert (H1 : (0 <= currentIndex st < len (questions st) - 1)%Z) by (cbn; lia).
  assert (H2 : (0 < currentIndex st <= len (questions st) - 1)%Z) by (cbn; lia).
  split; [exact H1|]. split; [exact H2|]. split.
  - exact (proj1 (proj2 (proj2 (previous_next_steps st))) H1).
  - exact (proj2 (proj2 (proj2 (previous_next_steps st))) H2).
Defined.

(** ** The history *)





Lemma index_In {A} (l : list A) i x : index l i = Some x -> In x l.
Proof.
  unfold index. destruct (i <? 0)%Z; [discriminate|]. apply nth_error_In.
Qed.

(** ** What each event leaves alone *)

(** X18. Only Fetch Questions and Reset change the list of questions, and
    only typing into a parameter field changes that parameter: grading and
    moving between questions keep questions, role, company and program, and
    fetching and resetting keep role, company and program. *)
Theorem events_frame (st st' : SessionState) (ev : event) :
  handle st ev = Some st' ->
  ((forall res, ev <> ClickFetch res) -> ev <> ClickReset ->
   questions st' = questions st)
  /\ ((forall v, ev <> TypeRole v) -> role st' = role st)
  /\ ((forall v, ev <> TypeCompany v) -> company st' = company st)
  /\ ((forall v, ev <> TypeProgram v) -> program st' = program st).
Proof.
  unfold handle. destruct (rendered st ev); [|discriminate]. intros [= <-].
  destruct ev as [v|v|v|v|res| |res| |];
    unfold settle, fetchQuestions, gradeAnswer;
    try destruct (selected st); cbn [run_client];
    try destruct (res_json res); cbn;
    repeat split; intros; try reflexivity; try congruence;
    exfalso; match goal with H : forall x, _ <> _ |- _ => eapply H; reflexivity end.
Qed.

Lemma events_frame_witness :
  let fetched := Http (json (QuestionsBody [lit "Q1"; lit "Q2"])) in
  let graded := Http (json (GradeBody 7 (lit "Good."))) in
  let st := settle fetched (fetchQuestions initial_state) in
  exists st',
    handle st (ClickSubmit graded) = Some st'
    /\ questions st' = questions st /\ role st' = role st.
Proof.
  intros fetched graded st. eexists.
  assert (H : handle st (ClickSubmit graded) = Some (settle graded (gradeAnswer st)))
    by reflexivity.
  split; [exact H|].
  destruct (events_frame st _ (ClickSubmit graded) H) as (Hq & Hr & _).
  split; [apply Hq; discriminate|apply Hr; discriminate].
Defined.


(** * The page with requests in flight *)

(** ** Handling in turn, as a run of the page *)

Lemma settle_fetch_resume res st :
  settle res (fetchQuestions st) = resume (PendingFetch st) res (setLoading true st).
Proof.
  unfold settle, fetchQuestions, resume. cbn [run_client].
  destruct (res_json res); reflexivity.
Qed.

Lemma settle_grade_resume res st q :
  selected st = Some q ->
  settle res (gradeAnswer st) = resume (PendingGrade st q) res (setLoading true st).
Proof.
  intros Hsel. unfold settle, gradeAnswer, resume. rewrite Hsel. cbn [run_client].
  destruct (res_json res); reflexivity.
Qed.

Lemma in_turn_user p u : in_flight p = [] -> in_turn p (User u).
Proof. intros H u' _. exact H. Qed.

Lemma in_turn_answer p n res : in_turn p (Answer n res).
Proof. intros u H. discriminate H. Qed.

(** An event handled to completion is a user event followed, when a request
    was sent, by the arrival of its answer. *)
Lemma handle_in_turn st ev st' :
  handle st ev = Some st' ->
  reaches in_turn (mkPage st []) -> reaches in_turn (mkPage st' []).
Proof.
  unfold handle. destruct (rendered st ev) eqn:Hr; [|discriminate].
  intros [= <-] Hp.
  assert (Hu : forall u, shown st u = true -> reaches in_turn (act u (mkPage st []))).
  { intros u Hs. apply (reaches_step in_turn (mkPage st []) (User u)).
    - exact Hp.
    - apply in_turn_user. reflexivity.
    - cbn. rewrite Hs. reflexivity. }
  destruct ev as [v|v|v|v|res| |res| |]; cbn [rendered] in Hr.
  - exact (Hu (EnterRole v) eq_refl).
  - exact (Hu (EnterCompany v) eq_refl).
  - exact (Hu (EnterProgram v) eq_refl).
  - exact (Hu (EnterAnswer v) Hr).
  - rewrite settle_fetch_resume.
    apply (reaches_step in_turn (act PressFetch (mkPage st [])) (Answer 0 res)).
    + exact (Hu PressFetch eq_refl).
    + apply in_turn_answer.
    + reflexivity.
  - exact (Hu PressReset eq_refl).
  - destruct (selected st) as [q|] eqn:Hsel.
    + rewrite (settle_grade_resume res st q Hsel).
      pose proof (Hu PressSubmit Hr) as H. cbn [act cells in_flight] in H.
      rewrite Hsel in H.
      apply (reaches_step in_turn _ (Answer 0 res) _ H).
      * apply in_turn_answer.
      * reflexivity.
    + pose proof (Hu PressSubmit Hr) as H. cbn [act cells in_flight] in H.
      rewrite Hsel in H. unfold settle, gradeAnswer. rewrite Hsel. exact H.
  - exact (Hu PressPrev Hr).
  - exact (Hu PressNext Hr).
Qed.

Lemma reachable_in_turn st : reachable st -> reaches in_turn (mkPage st []).
Proof.
  induction 1 as [|st ev st' _ IH Hstep]; [apply reaches_start|].
  eapply handle_in_turn; eassumption.
Qed.

Lemma reaches_weaken (A B : page -> occurrence -> Prop) p :
  (forall q o, A q o -> B q o) -> reaches A p -> reaches B p.
Proof.
  intros HAB. induction 1 as [|p o p' _ IH Ha Ho]; [apply reaches_start|].
  apply (reaches_step B p o); auto.
Qed.

Lemma occur_all_anyhow os : forall p p',
  reaches anyhow p -> occur_all p os = Some p' -> reaches anyhow p'.
Proof.
  induction os as [|o os IH]; intros p p' Hp H; simpl in H.
  - injection H as <-. assumption.
  - destruct (occur p o) as [p1|] eqn:Ho; [|discriminate].
    apply (IH p1); [|assumption]. apply (reaches_step anyhow p o); [assumption|exact I|assumption].
Qed.

Lemma without_In {A} n (l : list A) x : In x (without n l) -> In x l.
Proof.
  unfold without. revert n. induction l as [|y l IH]; intros [|n]; simpl; auto.
  intros [->|H]; [left; reflexivity|right; apply (IH n); assumption].
Qed.

Lemma nth_error_one {A} (x y : A) n :
  nth_error [x] n = Some y -> n = 0%nat /\ y = x.
Proof.
  destruct n as [|[|n]]; simpl; intros H; try discriminate.
  injection H as <-. split; reflexivity.
Qed.

Lemma selected_question st q :
  selected st = Some q ->
  q <> [] /\ In q (questions st) /\ (0 <= currentIndex st < len (questions st))%Z.
Proof.
  intros H. split; [|split; [|exact (selected_in_range st q H)]];
    unfold selected in H;
    destruct (index (questions st) (currentIndex st)) as [q'|] eqn:Hi; try discriminate;
    destruct (truthy_str q') eqn:Ht; try discriminate; injection H as <-.
  - apply truthy_str_true. assumption.
  - eapply index_In. eassumption.
Qed.

(** ** Whatever the order of events and answers *)

Lemma occur_any_order p o p' :
  ((0 <= currentIndex (cells p))%Z
   /\ Forall (fun e => h_question e <> []) (history (cells p))
   /\ Forall pending_selected (in_flight p)) ->
  occur p o = Some p' ->
  (0 <= currentIndex (cells p'))%Z
  /\ Forall (fun e => h_question e <> []) (history (cells p'))
  /\ Forall pending_selected (in_flight p').
Proof.
  intros (H0 & Hh & Hf) Ho. destruct p as [st fl]. cbn [cells in_flight] in *.
  destruct o as [u|n res]; cbn [occur cells in_flight] in Ho.
  - destruct (shown st u) eqn:Hs; [|discriminate]. injection Ho as <-.
    destruct u; cbn [act cells in_flight shown] in *;
      try (repeat split; assumption).
    + repeat split; try assumption. apply Forall_app. split; [assumption|].
      repeat constructor.
    + repeat split; try assumption. constructor.
    + destruct (selected st) as [q|] eqn:Hsel; cbn [cells in_flight];
        repeat split; try assumption.
      apply Forall_app. split; [assumption|]. repeat constructor. exact Hsel.
    + repeat split; try assumption. cbn. lia.
    + apply negb_true_iff, Z.eqb_neq in Hs. pose proof (len_nonneg (questions st)).
      repeat split; try assumption. cbn. lia.
  - destruct (nth_error fl n) as [pd|] eqn:Hn; [|discriminate]. injection Ho as <-.
    cbn [cells in_flight].
    assert (Hpd : pending_selected pd).
    { rewrite Forall_forall in Hf. apply Hf. eapply nth_error_In. eassumption. }
    assert (Hfl : Forall pending_selected (without n fl)).
    { rewrite Forall_forall in *. intros x Hx. apply Hf. eapply without_In. eassumption. }
    unfold resume. destruct (res_json res) as [data|e]; [|repeat split; assumption].
    destruct pd as [c|c q]; cbn.
    + repeat split; [lia|constructor|assumption].
    + cbn in Hpd. destruct (selected_question c q Hpd) as (Hq & _ & Hr).
      repeat split; [lia| |assumption]. constructor; assumption.
Qed.

Lemma reaches_any_order p :
  reaches anyhow p ->
  (0 <= currentIndex (cells p))%Z
  /\ Forall (fun e => h_question e <> []) (history (cells p))
  /\ Forall pending_selected (in_flight p).
Proof.
  induction 1 as [|p o p' _ IH _ Ho].
  - repeat split; [cbn; lia|constructor|constructor].
  - eapply occur_any_order; eassumption.
Qed.

(** ** When the page is used in turn *)

Lemma occur_in_turn p o p' :
  (index_selects (cells p)
   /\ Forall (fun e => In (h_question e) (questions (cells p))) (history (cells p))
   /\ (in_flight p = []
       \/ exists pd, in_flight p = [pd] /\ pending_current (cells p) pd)) ->
  in_turn p o -> occur p o = Some p' ->
  index_selects (cells p')
  /\ Forall (fun e => In (h_question e) (questions (cells p'))) (history (cells p'))
  /\ (in_flight p' = []
      \/ exists pd, in_flight p' = [pd] /\ pending_current (cells p') pd).
Proof.
  intros ([H0 Hlt] & Hh & Hf) Ht Ho. destruct p as [st fl]. cbn [cells in_flight] in *.
  destruct o as [u|n res]; cbn [occur cells in_flight] in Ho.
  - assert (Hfl : fl = []) by (apply (Ht u); reflexivity). subst fl. clear Hf.
    destruct (shown st u) eqn:Hs; [|discriminate]. injection Ho as <-.
    destruct u; cbn [act cells in_flight shown app] in *.
    1-4: (split; [split; assumption|]); (split; [assumption|left; reflexivity]).
    + split; [split; assumption|]. split; [assumption|].
      right. eexists. split; [reflexivity|exact I].
    + split; [split; [assumption|intros H; contradiction H; reflexivity]|].
      split; [constructor|left; reflexivity].
    + destruct (selected st) as [q|] eqn:Hsel; cbn [cells in_flight app].
      * split; [split; assumption|]. split; [assumption|].
        right. eexists. split; [reflexivity|]. split; [assumption|reflexivity].
      * split; [split; assumption|]. split; [assumption|left; reflexivity].
    + split; [|split; [assumption|left; reflexivity]].
      split; [cbn; lia|]. intros Hne. specialize (Hlt Hne). cbn. lia.
    + apply negb_true_iff, Z.eqb_neq in Hs. pose proof (len_nonneg (questions st)).
      split; [|split; [assumption|left; reflexivity]].
      split; [cbn; lia|]. intros _. cbn. lia.
  - destruct (nth_error fl n) as [pd|] eqn:Hn; [|discriminate]. injection Ho as <-.
    cbn [cells in_flight].
    destruct Hf as [->|(pd0 & -> & Hpd)]; [destruct n; discriminate|].
    destruct (nth_error_one _ _ _ Hn) as [-> ->].
    unfold resume. destruct (res_json res) as [data|e].
    2:{ split; [split; assumption|]. split; [assumption|left; reflexivity]. }
    destruct pd0 as [c|c q]; cbn [pending_current] in Hpd.
    + split; [|split; [constructor|left; reflexivity]].
      split; [cbn; lia|]. cbn. intros Hne. unfold len.
      destruct (data_questions data); [contradiction|]. simpl. lia.
    + destruct Hpd as [Hsel Hq]. destruct (selected_question c q Hsel) as (_ & Hin & Hr).
      rewrite Hq in Hin, Hr. rewrite Hq.
      split; [|split; [constructor; assumption|left; reflexivity]].
      split; [cbn; lia|]. cbn. intros _. lia.
Qed.

Lemma reaches_in_turn p :
  reaches in_turn p ->
  index_selects (cells p)
  /\ Forall (fun e => In (h_question e) (questions (cells p))) (history (cells p))
  /\ (in_flight p = []
      \/ exists pd, in_flight p = [pd] /\ pending_current (cells p) pd).
Proof.
  induction 1 as [|p o p' _ IH Ht Ho].
  - split; [split; [cbn; lia|intros H; contradiction H; reflexivity]|].
    split; [constructor|left; reflexivity].
  - eapply occur_in_turn; eassumption.
Qed.

(** What overlapping requests do: Submit on the first of two questions, then
    Fetch Questions while the grade is awaited; the fetch is answered with
    one question, and then the grade arrives. *)
Example overlapping_requests :
  let fetched2 := Http (json (QuestionsBody [lit "Q1"; lit "Q2"])) in
  let fetched1 := Http (json (QuestionsBody [lit "Z"])) in
  let graded := Http (json (GradeBody 7 (lit "Good."))) in
  exists p,
    occur_all start [User PressFetch; Answer 0 fetched2;
                     User PressSubmit; User PressFetch;
                     Answer 1 fetched1; Answer 0 graded] = Some p
    /\ reaches anyhow p
    /\ questions (cells p) = [lit "Z"] /\ currentIndex (cells p) = 1%Z
    /\ history (cells p) = [mkEntry (lit "Q1") [] (Some 7%Z) (Some (lit "Good."))]
    /\ in_flight p = [].
Proof.
  intros fetched2 fetched1 graded. eexists. split; [reflexivity|]. split.
  - apply (occur_all_anyhow [User PressFetch; Answer 0 fetched2;
                             User PressSubmit; User PressFetch;
                             Answer 1 fetched1; Answer 0 graded] start);
      [apply reaches_start|reflexivity].
  - repeat split.
Qed.

(** X15. Whatever the order in which events and answers come, [currentIndex]
    is never negative. When the page is used in turn (the user waits for the
    answer to a request before doing anything else) and the question panel
    is shown, [currentIndex] selects an existing question, so that the
    counter "Question i+1 / N" stays between 1 and N; with overlapping
    requests it need not ([overlapping_requests]). *)
Theorem currentIndex_bounds (p : page) :
  (reaches anyhow p -> (0 <= currentIndex (cells p))%Z)
  /\ (reaches in_turn p -> questions (cells p) <> [] ->
      (exists q, index (questions (cells p)) (currentIndex (cells p)) = Some q)
      /\ (1 <= currentIndex (cells p) + 1 <= len (questions (cells p)))%Z).
Proof.
  split.
  - intros H. apply (reaches_any_order p H).
  - intros H Hne. destruct (reaches_in_turn p H) as ([H0 Hlt] & _).
    specialize (Hlt Hne). split; [|lia].
    unfold index.
    destruct (currentIndex (cells p) <? 0)%Z eqn:E; [apply Z.ltb_lt in E; lia|].
    destruct (nth_error (questions (cells p)) (Z.to_nat (currentIndex (cells p))))
      as [q|] eqn:Hn; [exists q; reflexivity|].
    apply nth_error_None in Hn. unfold len in Hlt. lia.
Qed.

Lemma currentIndex_bounds_witness :
  let fetched := Http (json (QuestionsBody [lit "Q1"; lit "Q2"])) in
  let graded := Http (json (GradeBody 7 (lit "Good."))) in
  let st := settle graded (gradeAnswer (settle fetched (fetchQuestions initial_state))) in
  reaches in_turn (mkPage st []) /\ questions st <> []
  /\ (exists q, index (questions st) (currentIndex st) = Some q)
  /\ (1 <= currentIndex st + 1 <= len (questions st))%Z.
Proof.
  intros fetched graded st.
  assert (Hr : reaches in_turn (mkPage st [])).
  { apply reachable_in_turn.
    apply (handle_all_reachable [ClickFetch fetched; ClickSubmit graded] initial_state);
      [apply reach_init|reflexivity]. }
  assert (Hne : questions st <> []) by discriminate.
  split; [exact Hr|]. split; [exact Hne|].
  exact (proj2 (currentIndex_bounds (mkPage st [])) Hr Hne).
Defined.

(** X17. Whatever the order in which events and answers come, the question
    of every entry of [history] is a non-empty string. When the page is used
    in turn, it is moreover one of the current questions; with overlapping
    requests it need not be ([overlapping_requests]). *)
Theorem history_questions (p : page) :
  (reaches anyhow p ->
   Forall (fun e => h_question e <> []) (history (cells p)))
  /\ (reaches in_turn p ->
      Forall (fun e => In (h_question e) (questions (cells p))) (history (cells p))).
Proof.
  split; intros H.
  - apply (reaches_any_order p H).
  - apply (reaches_in_turn p H).
Qed.

Lemma history_questions_witness :
  let fetched := Http (json (QuestionsBody [lit "Q1"; lit "Q2"])) in
  let graded := Http (json (GradeBody 7 (lit "Good."))) in
  let st := settle graded (gradeAnswer (settle fetched (fetchQuestions initial_state))) in
  reaches in_turn (mkPage st [])
  /\ history st = [mkEntry (lit "Q1") [] (Some 7%Z) (Some (lit "Good."))]
  /\ Forall (fun e => In (h_question e) (questions st)) (history st).
Proof.
  intros fetched graded st.
  assert (Hr : reaches in_turn (mkPage st [])).
  { apply reachable_in_turn.
    apply (handle_all_reachable [ClickFetch fetched; ClickSubmit graded] initial_state);
      [apply reach_init|reflexivity]. }
  split; [exact Hr|]. split; [reflexivity|].
  exact (proj2 (history_questions (mkPage st [])) Hr).
Defined.

(** ** The page served by the handler *)

Lemma parseQuestions_nonempty text : Forall (fun q => q <> []) (parseQuestions text).
Proof.
  apply Forall_forall. intros q Hq. unfold parseQuestions in Hq.
  apply filter_In in Hq as [_ Hq]. apply truthy_str_true. assumption.
Qed.

Lemma occur_served p o p' :
  (Forall (fun q => q <> []) (questions (cells p))
   /\ (loading (cells p) = true -> in_flight p <> [])) ->
  served p o -> occur p o = Some p' ->
  Forall (fun q => q <> []) (questions (cells p'))
  /\ (loading (cells p') = true -> in_flight p' <> []).
Proof.
  intros (Hq & Hl) Hs Ho. destruct p as [st fl]. cbn [cells in_flight] in *.
  destruct o as [u|n res]; cbn [occur cells in_flight] in Ho.
  - destruct (shown st u) eqn:Hsh; [|discriminate]. injection Ho as <-.
    destruct u; cbn [act cells in_flight] in *; try (split; assumption).
    + split; [assumption|]. intros _ E. apply app_eq_nil in E as [_ E]. discriminate.
    + split; [constructor|assumption].
    + destruct (selected st); cbn [cells in_flight]; [|split; assumption].
      split; [assumption|]. intros _ E. apply app_eq_nil in E as [_ E]. discriminate.
  - destruct (nth_error fl n) as [pd|] eqn:Hn; [|discriminate]. injection Ho as <-.
    cbn [cells in_flight].
    destruct (Hs n res pd eq_refl Hn) as (key & up & ->).
    unfold resume. destruct pd as [c|c q]; cbn [request_of].
    + destruct (serve_generate_data key up c) as (r & log & data & Hsv & Hp & Hd).
      rewrite Hsv. cbn [fst res_json]. rewrite Hp. cbn.
      split; [|discriminate]. rewrite Hd.
      destruct (model_text key up (questionPrompt (generate_body c)));
        [apply parseQuestions_nonempty|constructor].
    + destruct (serve_grade_data key up c q) as (r & log & data & Hsv & Hp & _).
      rewrite Hsv. cbn [fst res_json]. rewrite Hp. cbn.
      split; [assumption|discriminate].
Qed.

Lemma reaches_served p :
  reaches served p ->
  Forall (fun q => q <> []) (questions (cells p))
  /\ (loading (cells p) = true -> in_flight p <> []).
Proof.
  induction 1 as [|p o p' _ IH Hs Ho].
  - split; [constructor|discriminate].
  - eapply occur_served; eassumption.
Qed.

(** X19. When the answers are those of the handler, whatever the key and the
    model service do and whatever the order of events and answers: no
    question on the page is the empty string, and [loading] is on only while
    a request is in flight. When the page is moreover used in turn and the
    question panel is shown, Submit finds a question to grade (the guard of
    line 48 does not fire). *)
Theorem served_page_invariant (p : page) :
  (reaches served p ->
   Forall (fun q => q <> []) (questions (cells p))
   /\ (in_flight p = [] -> loading (cells p) = false))
  /\ (reaches served_in_turn p -> questions (cells p) <> [] ->
      exists q, selected (cells p) = Some q).
Proof.
  split.
  - intros H. destruct (reaches_served p H) as [Hq Hl]. split; [assumption|].
    intros Hf. destruct (loading (cells p)); [|reflexivity].
    contradiction (Hl eq_refl).
  - intros H Hne.
    assert (Hs : reaches served p).
    { apply (reaches_weaken served_in_turn); [|assumption]. intros q o [Ha _]. exact Ha. }
    assert (Ht : reaches in_turn p).
    { apply (reaches_weaken served_in_turn); [|assumption]. intros q o [_ Hb]. exact Hb. }
    destruct (reaches_served p Hs) as [Hq _].
    destruct (reaches_in_turn p Ht) as ([H0 Hlt] & _).
    specialize (Hlt Hne). unfold selected, index.
    destruct (currentIndex (cells p) <? 0)%Z eqn:E; [apply Z.ltb_lt in E; lia|].
    destruct (nth_error (questions (cells p)) (Z.to_nat (currentIndex (cells p))))
      as [q|] eqn:Hn.
    + exists q. rewrite Forall_forall in Hq.
      assert (Hq' : q <> []) by (apply Hq; eapply nth_error_In; eassumption).
      apply truthy_str_true in Hq'. rewrite Hq'. reflexivity.
    + apply nth_error_None in Hn. unfold len in Hlt. lia.
Qed.

Lemma served_page_invariant_witness :
  let key := Some (lit "sk-test") in
  let up := fun _ : outbound => UpContent (Some (lit "1. Q1" ++ [LF; LF] ++ lit "2. Q2")) in
  let res := fst (serve key up (POST (generate_body initial_state))) in
  let p := mkPage (resume (PendingFetch initial_state) res (setLoading true initial_state)) [] in
  reaches served_in_turn p
  /\ questions (cells p) = [lit "Q1"; lit "Q2"]
  /\ questions (cells p) <> []
  /\ exists q, selected (cells p) = Some q.
Proof.
  intros key up res p.
  assert (Hr : reaches served_in_turn p).
  { apply (reaches_step served_in_turn
             (mkPage (setLoading true initial_state) [PendingFetch initial_state])
             (Answer 0 res)).
    - apply (reaches_step served_in_turn start (User PressFetch)).
      + apply reaches_start.
      + split; [intros n r pd H; discriminate H|intros u _; reflexivity].
      + reflexivity.
    - split; [|intros u H; discriminate H].
      intros n r pd [= <- <-] [= <-]. exists key, up. reflexivity.
    - reflexivity. }
  assert (Hne : questions (cells p) <> []) by discriminate.
  split; [exact Hr|]. split; [reflexivity|]. split; [exact Hne|].
  exact (proj2 (served_page_invariant p) Hr Hne).
Defined.
